(** * Antimeridian (dateline) normalisation scripts of ixstats

    A shallow embedding of the three correction scripts

      - [scripts/split-dateline-geojson.py]  (SplitInterpolate),
      - [scripts/split-dateline-v2.py]       (SplitPartition),
      - [scripts/fix-dateline-final.py]      (ShiftUnify),

    followed by the properties of their geometric core.

    Numbers.  The scripts compute on the numbers that [json.load] yields.
    They are modelled as exact rationals [Q]; Python's comparisons
    ([<], [>], [==], [!=]) are the boolean comparisons of [Q] up to [Qeq],
    and Python's [/] raises [ZeroDivisionError] on a zero divisor.  Rounding
    of double-precision arithmetic is outside of this model.

    Exceptions.  None of the scripts contains a [try]; an exception raised
    anywhere propagates to the caller.  Functions that can raise return a
    [result]. *)

From Stdlib Require Import QArith Qabs ZArith List Bool Lia Lqa.
From stdpp Require Import base option list strings gmap fin_maps.
Import ListNotations.

Local Open Scope Q_scope.

(** ** Python exceptions and the error monad *)

Inductive exn : Type :=
  | ZeroDivisionError   (* [a / b] with [b == 0] *)
  | IndexError          (* [polygon[0]] on an empty polygon *)
  | ValueError.         (* [min([])] / [max([])] *)

Inductive result (A : Type) : Type :=
  | Ok (a : A)
  | Raise (e : exn).
Arguments Ok {A} a.
Arguments Raise {A} e.

#[global] Instance result_ret : MRet result := fun _ a => Ok a.
#[global] Instance result_bind : MBind result := fun _ _ f m =>
  match m with
  | Ok a => f a
  | Raise e => Raise e
  end.

(** ** Number comparisons *)

(** [Qgtb a b] is Python's [a > b]; [Qltb a b] is [a < b]. *)
Definition Qltb (a b : Q) : bool := negb (Qle_bool b a).
Definition Qgtb (a b : Q) : bool := Qltb b a.

(** Python's true division. *)
Definition pydiv (a b : Q) : result Q :=
  if Qeq_bool b 0 then Raise ZeroDivisionError else Ok (a / b).

(** ** Data model *)

(** A coordinate is a two-element JSON array [[lon, lat]]. *)
Definition coord : Type := (Q * Q)%type.
Definition lon (c : coord) : Q := fst c.
Definition lat (c : coord) : Q := snd c.

Definition ring : Type := list coord.
Definition polygon : Type := list ring.
Definition multipolygon : Type := list polygon.

(** Python's [==] on two coordinates (lists of two numbers). *)
Definition coord_eqb (c d : coord) : bool :=
  Qeq_bool (lon c) (lon d) && Qeq_bool (lat c) (lat d).

(** [l[-1]] of a non-empty list; [None] stands for the empty list. *)
Definition py_last {A} (l : list A) : option A := List.last (map Some l) None.

(** [ring[0] != ring[-1]] for a non-empty ring, [false] on the empty one
    (the scripts guard the test with the truth value of the list). *)
Definition ends_differ (r : ring) : bool :=
  match r, py_last r with
  | c :: _, Some d => negb (coord_eqb c d)
  | _, _ => false
  end.

(** [if r and r[0] != r[-1]: r.append(r[0])] *)
Definition close_ring (r : ring) : ring :=
  match r with
  | c :: _ => if ends_differ r then r ++ [c] else r
  | [] => []
  end.

(** Python's [min] and [max] of a list of numbers: a left-to-right scan
    that keeps the first extremal element; [ValueError] on the empty list. *)
Definition min_from (x : Q) (rest : list Q) : Q :=
  fold_left (fun m y => if Qltb y m then y else m) rest x.
Definition max_from (x : Q) (rest : list Q) : Q :=
  fold_left (fun m y => if Qgtb y m then y else m) rest x.

Definition py_min (l : list Q) : result Q :=
  match l with
  | [] => Raise ValueError
  | x :: rest => Ok (min_from x rest)
  end.
Definition py_max (l : list Q) : result Q :=
  match l with
  | [] => Raise ValueError
  | x :: rest => Ok (max_from x rest)
  end.

(** [part and len(part) > 3] *)
Definition valid_part (part : ring) : bool := (3 <? length part)%nat.

(** Property values; only their identity matters to the scripts. *)
Inductive json_value : Type :=
  | JNull
  | JBool (b : bool)
  | JInt (z : Z)
  | JNum (q : Q)
  | JStr (s : string).

(** A geometry object, by its ["type"] member.  The scripts read the
    coordinates of a MultiPolygon only. *)
Inductive geometry_object : Type :=
  | MultiPolygon (coordinates : multipolygon)
  | Polygon (coordinates : polygon)
  | OtherGeometry (type : string).

(** A feature object: its ["properties"], its ["geometry"], and its other
    members (["type"], ["id"], ["bbox"], ...). *)
Record feature : Type := Feature {
  members : gmap string json_value;
  properties : gmap string json_value;
  geometry : geometry_object
}.

(** ** SplitInterpolate: [split-dateline-geojson.py] *)

Module SplitInterpolate.

(** The edge test [abs(lon2 - lon1) > 180]. *)
Definition edge_jumps (c1 c2 : coord) : bool :=
  Qgtb (Qabs (lon c2 - lon c1)) 180.

(** [crosses_dateline]: the loop over [range(len(coords) - 1)]. *)
Fixpoint crosses_dateline (coords : ring) : bool :=
  match coords with
  | c1 :: ((c2 :: _) as rest) =>
      if edge_jumps c1 c2 then true else crosses_dateline rest
  | _ => false
  end.

(** The local variables of [split_polygon_at_dateline]. *)
Record split_state : Type := SplitState {
  west_part : ring;
  east_part : ring;
  current_part : ring;
  is_west : bool
}.

Definition split_init : split_state :=
  {| west_part := []; east_part := []; current_part := []; is_west := true |}.

(** The assignment [if is_west: west_part = cur else: east_part = cur],
    followed by the start of a new part on the other side. *)
Definition flush_part (st : split_state) (cur next : ring) : split_state :=
  {| west_part := if is_west st then cur else west_part st;
     east_part := if is_west st then east_part st else cur;
     current_part := next;
     is_west := negb (is_west st) |}.

(** One iteration of the loop body, on the edge [coords[i], coords[i+1]]. *)
Definition split_step (st : split_state) (c1 c2 : coord) : result split_state :=
  let '(lon1, lat1) := c1 in
  let '(lon2, lat2) := c2 in
  let cur := current_part st ++ [(lon1, lat1)] in
  if Qgtb (Qabs (lon2 - lon1)) 180 then
    if Qgtb lon1 0 then
      ratio ← pydiv (180 - lon1) ((lon2 + 360) - lon1);
      let lat_cross := lat1 + ratio * (lat2 - lat1) in
      Ok (flush_part st (cur ++ [(180, lat_cross)]) [(-180, lat_cross)])
    else
      ratio ← pydiv (-180 - lon1) ((lon2 - 360) - lon1);
      let lat_cross := lat1 + ratio * (lat2 - lat1) in
      Ok (flush_part st (cur ++ [(-180, lat_cross)]) [(180, lat_cross)])
  else
    Ok {| west_part := west_part st; east_part := east_part st;
          current_part := cur; is_west := is_west st |}.

(** The loop [for i in range(len(coords) - 1)]. *)
Fixpoint split_loop (st : split_state) (coords : ring) : result split_state :=
  match coords with
  | c1 :: ((c2 :: _) as rest) => st' ← split_step st c1 c2; split_loop st' rest
  | _ => Ok st
  end.

(** [part = cur if not part else part + cur[1:]] *)
Definition join_part (part cur : ring) : ring :=
  match part with
  | [] => cur
  | _ :: _ => part ++ tail cur
  end.

(** The code after the loop: the last point, the final part, the closing. *)
Definition split_finish (st : split_state) (coords : ring) : ring * ring :=
  let cur :=
    match py_last coords with
    | Some c => current_part st ++ [c]
    | None => current_part st
    end in
  let west := if is_west st then join_part (west_part st) cur else west_part st in
  let east := if is_west st then east_part st else join_part (east_part st) cur in
  (close_ring west, close_ring east).

(** [split_polygon_at_dateline(coords)] returns [(west_part, east_part)]. *)
Definition split_polygon_at_dateline (coords : ring) : result (ring * ring) :=
  st ← split_loop split_init coords; Ok (split_finish st coords).

(** What one iteration of the loop of [process_multipolygon] appends to
    [result_polygons].  [polygon[0]] raises on an empty polygon. *)
Definition polygon_parts (poly : polygon) : result (list polygon) :=
  match poly with
  | [] => Raise IndexError
  | outer_ring :: holes =>
      if crosses_dateline outer_ring then
        parts ← split_polygon_at_dateline outer_ring;
        let '(west, east) := parts in
        Ok ((if valid_part west then [[west]] else []) ++
            (if valid_part east then [[east]] else []))
      else
        Ok [poly]
  end.

(** [process_multipolygon]: the loop, with [result_polygons] as accumulator. *)
Fixpoint process_loop (result_polygons : list polygon) (todo : multipolygon)
    : result (list polygon) :=
  match todo with
  | [] => Ok result_polygons
  | poly :: rest =>
      parts ← polygon_parts poly;
      process_loop (result_polygons ++ parts) rest
  end.

Definition process_multipolygon (multipolygon_coords : multipolygon)
    : result (list polygon) :=
  process_loop [] multipolygon_coords.

(** [any(crosses_dateline(polygon[0]) for polygon in coords)]; the generator
    is consumed up to the first [True]. *)
Fixpoint needs_split (coords : multipolygon) : result bool :=
  match coords with
  | [] => Ok false
  | [] :: _ => Raise IndexError
  | (outer_ring :: _) :: rest =>
      if crosses_dateline outer_ring then Ok true else needs_split rest
  end.

(** The body of the loop over the features of [process_geojson]: the
    features appended to [new_features]. *)
Definition process_feature (f : feature) : result (list feature) :=
  match geometry f with
  | MultiPolygon coords =>
      split ← needs_split coords;
      if (split : bool) then
        new_coords ← process_multipolygon coords;
        Ok [ {| members := members f; properties := properties f;
                geometry := MultiPolygon new_coords |} ]
      else Ok [f]
  | _ => Ok [f]
  end.

(** [process_geojson], from the parsed features to the features written. *)
Fixpoint process_features (new_features : list feature) (features : list feature)
    : result (list feature) :=
  match features with
  | [] => Ok new_features
  | f :: rest =>
      out ← process_feature f;
      process_features (new_features ++ out) rest
  end.

Definition process_geojson (features : list feature) : result (list feature) :=
  process_features [] features.

End SplitInterpolate.


(** ** SplitPartition: [split-dateline-v2.py] *)

Module SplitPartition.




(** The loop that fills [east_points] and [west_points]; the result is the
    pair [(east_points, west_points)]. *)
Definition partition_points (outer_ring : ring) : ring * ring :=
  fold_left
    (fun (acc : ring * ring) (c : coord) =>
       if Qgtb (lon c) 0 then (fst acc ++ [c], snd acc) else (fst acc, snd acc ++ [c]))
    outer_ring ([], []).

(** [[lon - 360, lat] if lon > 170 else [lon, lat]] *)
Definition shift_east (c : coord) : coord :=
  if Qgtb (lon c) 170 then (lon c - 360, lat c) else c.

(** [[lon + 360, lat] if lon < -170 else [lon, lat]] *)
Definition shift_west (c : coord) : coord :=
  if Qltb (lon c) (-170) then (lon c + 360, lat c) else c.

(** One of the two blocks [if points and len(points) > 3: ...]: the parts
    it appends to [parts_to_split] (none or one). *)
Definition side_parts (shift : coord -> coord) (points : ring) : list multipolygon :=
  if valid_part points then
    let side_polygon := close_ring (map shift points) in
    if (3 <? length side_polygon)%nat then [[[side_polygon]]] else []
  else [].

(** [lons = [coord[0] for coord in outer_ring]] and the test
    [(max_lon - min_lon) > 350]; [min] raises on an empty ring. *)
Definition span_test (outer_ring : ring) : result bool :=
  let lons := map lon outer_ring in
  min_lon ← py_min lons;
  max_lon ← py_max lons;
  Ok (Qgtb (max_lon - min_lon) 350).

(** The body of the loop over the polygons of a MultiPolygon, on the pair
    [(has_crossing, parts_to_split)]. *)
Definition polygon_step (st : bool * list multipolygon) (poly : polygon)
    : result (bool * list multipolygon) :=
  match poly with
  | [] => Raise IndexError
  | outer_ring :: _ =>
      crossing ← span_test outer_ring;
      if (crossing : bool) then
        let '(east_points, west_points) := partition_points outer_ring in
        Ok (true, snd st ++ side_parts shift_east east_points
                         ++ side_parts shift_west west_points)
      else
        Ok (fst st, snd st ++ [[poly]])
  end.

Fixpoint scan_polygons (st : bool * list multipolygon) (coords : multipolygon)
    : result (bool * list multipolygon) :=
  match coords with
  | [] => Ok st
  | poly :: rest => st' ← polygon_step st poly; scan_polygons st' rest
  end.

(** The feature built for [parts_to_split[part_idx]], [n] being
    [len(parts_to_split)]. *)
Definition part_feature (props : gmap string json_value) (n : nat)
    (part_idx : nat) (part_coords : multipolygon) : feature :=
  {| members := {[ "type"%string := JStr "Feature" ]};
     properties :=
       if (1 <? n)%nat
       then <[ "_part"%string := JInt (Z.of_nat part_idx + 1) ]> props
       else props;
     geometry := MultiPolygon part_coords |}.

(** The body of the loop over the features: what it appends to
    [new_features]. *)
Definition process_feature (f : feature) : result (list feature) :=
  match geometry f with
  | MultiPolygon coords =>
      st ← scan_polygons (false, []) coords;
      let '(has_crossing, parts_to_split) := st in
      if (has_crossing : bool) then
        Ok (imap (part_feature (properties f) (length parts_to_split)) parts_to_split)
      else Ok [f]
  | _ => Ok [f]
  end.

Fixpoint process_features (new_features : list feature) (features : list feature)
    : result (list feature) :=
  match features with
  | [] => Ok new_features
  | f :: rest =>
      out ← process_feature f;
      process_features (new_features ++ out) rest
  end.

Definition process_geojson (features : list feature) : result (list feature) :=
  process_features [] features.

End SplitPartition.

(** ** ShiftUnify: [fix-dateline-final.py] *)

Module ShiftUnify.

(** [all_lons], and [new_lons] after the fix. *)
Definition all_lons (coords : multipolygon) : list Q :=
  concat (map (fun poly : polygon => concat (map (fun r : ring => map lon r) poly)) coords).

(** [min_lon < -170 and max_lon > 170], under the guard [if all_lons]. *)
Definition crosses (coords : multipolygon) : bool :=
  match all_lons coords with
  | [] => false
  | x :: rest => Qltb (min_from x rest) (-170) && Qgtb (max_from x rest) 170
  end.

(** [if lon < 0: ring[i] = [lon + 360, lat]] *)
Definition shift_coord (c : coord) : coord :=
  if Qltb (lon c) 0 then (lon c + 360, lat c) else c.

(** The three nested loops that rewrite the rings in place. *)
Definition shift_all (coords : multipolygon) : multipolygon :=
  map (fun poly : polygon => map (fun r : ring => map shift_coord r) poly) coords.

Definition fix_coordinates (coords : multipolygon) : multipolygon :=
  if crosses coords then shift_all coords else coords.

(** The body of the loop over the features; the feature is updated in
    place and stays in [data]. *)
Definition fix_feature (f : feature) : feature :=
  match geometry f with
  | MultiPolygon coords =>
      {| members := members f; properties := properties f;
         geometry := MultiPolygon (fix_coordinates coords) |}
  | _ => f
  end.

Definition fix_dateline_crossing (features : list feature) : list feature :=
  map fix_feature features.

End ShiftUnify.


(** * Vocabulary of the statements *)

(** ** Rings *)

(** Membership and equality up to Python's [==] on numbers. *)
Definition has_point (r : ring) (c : coord) : bool := existsb (coord_eqb c) r.

Fixpoint ring_eqb (r s : ring) : bool :=
  match r, s with
  | [], [] => true
  | c :: r', d :: s' => coord_eqb c d && ring_eqb r' s'
  | _, _ => false
  end.

(** A ring is closed when it is non-empty and its two ends are equal. *)
Definition closed (r : ring) : Prop := r <> [] /\ ends_differ r = false.

(** A coordinate whose longitude lies in [[lo, hi]]. *)
Definition in_range (lo hi : Q) (c : coord) : Prop := lo <= lon c /\ lon c <= hi.

(** ** SplitInterpolate *)

(** The divisor of the interpolation ratio on a crossing edge: the
    longitude difference after the +/-360 unwrap of the second endpoint. *)
Definition crossing_denominator (c1 c2 : coord) : Q :=
  if Qgtb (lon c1) 0 then (lon c2 + 360) - lon c1 else (lon c2 - 360) - lon c1.

(** An edge declared a crossing whose interpolation divisor is zero. *)
Definition degenerate_edge (c1 c2 : coord) : bool :=
  SplitInterpolate.edge_jumps c1 c2 && Qeq_bool (crossing_denominator c1 c2) 0.

Fixpoint has_degenerate_edge (coords : ring) : bool :=
  match coords with
  | c1 :: ((c2 :: _) as rest) => degenerate_edge c1 c2 || has_degenerate_edge rest
  | _ => false
  end.

(** A polygon on which SplitInterpolate raises no exception: it has an outer
    ring, and no crossing edge of that ring is degenerate. *)
Definition sound_polygon (poly : polygon) : Prop :=
  match poly with
  | outer_ring :: _ => has_degenerate_edge outer_ring = false
  | [] => False
  end.

(** A coordinate of a part: a coordinate of the input ring, or a seam point. *)
Definition input_or_seam (coords : ring) (c : coord) : Prop :=
  In c coords \/ lon c = 180 \/ lon c = -180.

(** A property of every coordinate held in the local variables of
    [split_polygon_at_dateline]. *)
Definition state_all (P : coord -> Prop) (st : SplitInterpolate.split_state) : Prop :=
  Forall P (SplitInterpolate.west_part st) /\
  Forall P (SplitInterpolate.east_part st) /\
  Forall P (SplitInterpolate.current_part st).

(** What one polygon contributes to the result of [process_multipolygon]:
    a polygon whose outer ring is flagged yields parts of the split of that
    ring, each as a polygon of one ring; any other polygon yields itself. *)
Definition polygon_outcome (poly : polygon) (parts : list polygon) : Prop :=
  match poly with
  | outer_ring :: holes =>
      if SplitInterpolate.crosses_dateline outer_ring then
        exists west east,
          SplitInterpolate.split_polygon_at_dateline outer_ring = Ok (west, east) /\
          Forall (fun q => q = [west] \/ q = [east]) parts
      else parts = [outer_ring :: holes]
  | [] => False
  end.

(** ** SplitPartition *)

(** The test [lon > 0] that sends a point to [east_points]. *)
Definition east_of_zero (c : coord) : bool := Qgtb (lon c) 0.

(** A polygon on which [polygon[0]] and [min(lons)] do not raise. *)
Definition nonempty_outer (poly : polygon) : Prop :=
  match poly with
  | (_ :: _) :: _ => True
  | _ => False
  end.

(** Whether a polygon triggers the span test. *)
Definition triggers (poly : polygon) : bool :=
  match poly with
  | outer_ring :: _ =>
      match SplitPartition.span_test outer_ring with
      | Ok b => b
      | Raise _ => false
      end
  | [] => false
  end.

(** The ring built from the east group of an outer ring. *)
Definition east_ring (outer_ring : ring) : ring :=
  close_ring (map SplitPartition.shift_east (List.filter east_of_zero outer_ring)).

(** What a polygon adds to [parts_to_split]. *)
Definition contribution (poly : polygon) : list multipolygon :=
  if triggers poly then
    match poly with
    | outer_ring :: _ =>
        SplitPartition.side_parts SplitPartition.shift_east
          (List.filter east_of_zero outer_ring) ++
        SplitPartition.side_parts SplitPartition.shift_west
          (List.filter (fun c => negb (east_of_zero c)) outer_ring)
    | [] => []
    end
  else [[poly]].

(** The feature built for a part that is the only part: the properties are
    those of the original feature, without a part index. *)
Definition lone_part_feature (props : gmap string json_value) (r : ring) : feature :=
  {| members := {[ "type"%string := JStr "Feature" ]};
     properties := props;
     geometry := MultiPolygon [[r]] |}.

(** ** ShiftUnify *)

(** The effect of the in-place rewrite on one longitude. *)
Definition shift_lon (x : Q) : Q := if Qltb x 0 then x + 360 else x.

(** What the rewrite does to one coordinate. *)
Definition shifted (c c' : coord) : Prop :=
  lat c' = lat c /\
  (lon c < 0 -> lon c' = lon c + 360) /\
  (~ lon c < 0 -> c' = c).

(** ** Concrete inputs *)

(** A MultiPolygon feature with an ["id"] property. *)
Definition feature_of (id : string) (coords : multipolygon) : feature :=
  {| members := {[ "type"%string := JStr "Feature" ]};
     properties := {[ "id"%string := JStr id ]};
     geometry := MultiPolygon coords |}.

(** Scenario A: a strip across the seam, starting on its east side. *)
Definition scenario_A : ring :=
  [(179, 0); (-179, 0); (-179, 10); (179, 10); (179, 0)].

(** Scenario C: an outer ring from -179 to 179. *)
Definition scenario_C : multipolygon :=
  [[[(-179, 0); (179, 0); (179, 10); (-179, 10); (-179, 0)]]].

(** Scenario D: a closed ring across the seam with five points east of 0
    and three points west of it. *)
Definition scenario_D : ring :=
  [(176, 0); (177, 5); (179, 5); (-179, 5); (-178, 0); (-179, -5); (179, -5); (176, 0)].

(** A wider strip across the seam, and a hole in its eastern half. *)
Definition wide_ring : ring :=
  [(170, 0); (-170, 0); (-170, 10); (170, 10); (170, 0)].

Definition lagoon : ring :=
  [(172, 2); (174, 2); (174, 4); (172, 2)].

(** A square far from the seam, and a hole in it. *)
Definition inland_ring : ring :=
  [(10, 10); (20, 10); (20, 20); (10, 20); (10, 10)].

Definition pond : ring :=
  [(12, 12); (14, 12); (14, 14); (12, 12)].

(** A ring with a crossing edge from longitude 180 to longitude -180. *)
Definition seam_ring : ring :=
  [(180, 0); (-180, 0); (-180, 10); (180, 10); (180, 0)].

(** A ring around the south pole: it crosses the seam once and the
    Greenwich meridian once. *)
Definition polar_ring : ring :=
  [(-170, -80); (-90, -80); (-10, -80); (80, -80); (170, -80); (-170, -80)].

(** A closed four-point ring across the seam. *)
Definition thin_ring : ring :=
  [(-179, 0); (179, 0); (179, 10); (-179, 0)].

(** A ring through the Greenwich meridian. *)
Definition greenwich_ring : ring :=
  [(-1, 0); (0, 5); (1, 0); (0, -5); (-1, 0)].


Definition twice_west_coords : multipolygon :=
  [[[(-600, 0); (175, 0); (175, 5); (-600, 0)]]].

(** ** Vocabulary of the further properties *)




(** A feature on which SplitInterpolate raises no exception. *)
Definition sound_feature (f : feature) : Prop :=
  match geometry f with
  | MultiPolygon coords => Forall sound_polygon coords
  | _ => True
  end.

(** A feature on which SplitPartition raises no exception. *)
Definition scannable_feature (f : feature) : Prop :=
  match geometry f with
  | MultiPolygon coords => Forall nonempty_outer coords
  | _ => True
  end.

(** A feature that SplitPartition has no reason to touch: it is not a
    MultiPolygon, or none of its polygons triggers the span test. *)
Definition untriggered_feature (f : feature) : Prop :=
  match geometry f with
  | MultiPolygon coords => existsb triggers coords = false
  | _ => True
  end.

(** A feature that ShiftUnify has no reason to touch. *)
Definition unshifted_feature (f : feature) : Prop :=
  match geometry f with
  | MultiPolygon coords => ShiftUnify.crosses coords = false
  | _ => True
  end.

(** A feature that is no MultiPolygon. *)
Definition other_geometry (f : feature) : Prop :=
  match geometry f with
  | MultiPolygon _ => False
  | _ => True
  end.

(** A line and a point, which the scripts pass through. *)
Definition river : feature :=
  {| members := {[ "type"%string := JStr "Feature" ]};
     properties := {[ "id"%string := JStr "river" ]};
     geometry := OtherGeometry "LineString" |}.

(** A polygon with an outer ring that the edge-jump detector does not
    flag. *)
Definition unflagged (poly : polygon) : Prop :=
  match poly with
  | outer_ring :: _ => SplitInterpolate.crosses_dateline outer_ring = false
  | [] => False
  end.

(** A polygon made of one closed ring of more than three points. *)
Definition split_part_polygon (poly : polygon) : Prop :=
  exists r, poly = [r] /\ closed r /\ (3 < length r)%nat.

(** What SplitInterpolate writes for a feature: the other members and the
    properties are kept; a MultiPolygon stays a MultiPolygon, with the
    coordinates that [process_multipolygon] returns; any other feature is
    written as it is. *)
Definition interpolate_frame (f g : feature) : Prop :=
  members g = members f /\
  properties g = properties f /\
  match geometry f with
  | MultiPolygon coords =>
      exists new_coords,
        SplitInterpolate.process_multipolygon coords = Ok new_coords /\
        geometry g = MultiPolygon new_coords
  | _ => g = f
  end.

(** What SplitPartition keeps of a feature that it splits: the output
    feature has the single member ["type"], and every property other than
    ["_part"] is that of the original feature. *)
Definition partition_frame (f g : feature) : Prop :=
  members g = {[ "type"%string := JStr "Feature" ]} /\
  forall k : string, k <> "_part"%string -> properties g !! k = properties f !! k.

(** A coordinate that ShiftUnify left in place or moved east by one turn. *)
Definition moved_by_turn (c c' : coord) : Prop :=
  lat c' = lat c /\ (lon c' = lon c \/ lon c' = lon c + 360).

(** What ShiftUnify keeps of a feature. *)
Definition shift_frame (f g : feature) : Prop :=
  members g = members f /\
  properties g = properties f /\
  (unshifted_feature f -> g = f) /\
  forall coords, geometry f = MultiPolygon coords ->
    exists out, geometry g = MultiPolygon out /\
      Forall2 (Forall2 (Forall2 moved_by_turn)) coords out.

(** The number of crossing edges of a ring. *)
Fixpoint jumps (coords : ring) : nat :=
  match coords with
  | c1 :: ((c2 :: _) as rest) =>
      ((if SplitInterpolate.edge_jumps c1 c2 then 1 else 0) + jumps rest)%nat
  | _ => O
  end.

(** Where the coordinates walked so far are held after [j] crossings, for
    [j] at most 2.  After a crossing the first element of [current_part] is
    the point at which the walk resumed on the seam. *)
Definition split_phase (j : nat) (st : SplitInterpolate.split_state)
    (seen : coord -> Prop) : Prop :=
  match j with
  | O =>
      SplitInterpolate.west_part st = [] /\ SplitInterpolate.east_part st = [] /\
      SplitInterpolate.is_west st = true /\
      forall c, seen c -> In c (SplitInterpolate.current_part st)
  | S O =>
      SplitInterpolate.west_part st <> [] /\ SplitInterpolate.east_part st = [] /\
      SplitInterpolate.is_west st = false /\
      SplitInterpolate.current_part st <> [] /\
      forall c, seen c ->
        In c (SplitInterpolate.west_part st) \/
        In c (tail (SplitInterpolate.current_part st))
  | _ =>
      SplitInterpolate.west_part st <> [] /\
      SplitInterpolate.is_west st = true /\
      SplitInterpolate.current_part st <> [] /\
      forall c, seen c ->
        In c (SplitInterpolate.west_part st) \/
        In c (SplitInterpolate.east_part st) \/
        In c (tail (SplitInterpolate.current_part st))
  end.

(** The ring built from the west group of an outer ring. *)
Definition west_ring (outer_ring : ring) : ring :=
  close_ring (map SplitPartition.shift_west
                (List.filter (fun c => negb (east_of_zero c)) outer_ring)).

(** The feature built for the part of index [part_idx] among several. *)
Definition tagged_part_feature (props : gmap string json_value) (part_idx : Z)
    (r : ring) : feature :=
  {| members := {[ "type"%string := JStr "Feature" ]};
     properties := <[ "_part"%string := JInt part_idx ]> props;
     geometry := MultiPolygon [[r]] |}.

(** * Properties *)

(** ** Comparisons *)

Lemma Qltb_lt (a b : Q) : Qltb a b = true <-> a < b.
Proof.
  unfold Qltb. rewrite negb_true_iff, <- not_true_iff_false, Qle_bool_iff.
  split; [apply Qnot_le_lt | apply Qlt_not_le].
Qed.

Lemma Qltb_ge (a b : Q) : Qltb a b = false <-> b <= a.
Proof. unfold Qltb. rewrite negb_false_iff. apply Qle_bool_iff. Qed.

Lemma Qgtb_gt (a b : Q) : Qgtb a b = true <-> b < a.
Proof. apply Qltb_lt. Qed.

Lemma Qgtb_le (a b : Q) : Qgtb a b = false <-> a <= b.
Proof. apply Qltb_ge. Qed.

(** ** [min] and [max] *)

Lemma min_from_below (t x : Q) (rest : list Q) :
  Qltb (min_from x rest) t = true <-> Exists (fun y => y < t) (x :: rest).
Proof.
  unfold min_from. revert x. induction rest as [|z rest IH]; intros x; simpl.
  - rewrite Qltb_lt, Exists_cons, Exists_nil. tauto.
  - rewrite IH, !Exists_cons.
    destruct (Qltb z x) eqn:E; [apply Qltb_lt in E | apply Qltb_ge in E].
    + split; [tauto | intros [H | H]; [left | tauto]].
      now apply Qlt_trans with x.
    + split; [tauto | intros [H | [H | H]]; [tauto | left | tauto]].
      now apply Qle_lt_trans with z.
Qed.

Lemma max_from_above (t x : Q) (rest : list Q) :
  Qgtb (max_from x rest) t = true <-> Exists (fun y => t < y) (x :: rest).
Proof.
  unfold max_from. revert x. induction rest as [|z rest IH]; intros x; simpl.
  - rewrite Qgtb_gt, Exists_cons, Exists_nil. tauto.
  - rewrite IH, !Exists_cons.
    destruct (Qgtb z x) eqn:E; [apply Qgtb_gt in E | apply Qgtb_le in E].
    + split; [tauto | intros [H | H]; [left | tauto]].
      now apply Qlt_trans with x.
    + split; [tauto | intros [H | [H | H]]; [tauto | left | tauto]].
      now apply Qlt_le_trans with z.
Qed.

(** ** ShiftUnify *)

Section ShiftUnifyFacts.
Import ShiftUnify.

Lemma lon_shift_coord (c : coord) : lon (shift_coord c) = shift_lon (lon c).
Proof. unfold shift_coord, shift_lon. now destruct (Qltb (lon c) 0). Qed.

Lemma all_lons_shift_all (coords : multipolygon) :
  all_lons (shift_all coords) = map shift_lon (all_lons coords).
Proof.
  unfold all_lons, shift_all.
  induction coords as [|poly coords IH]; simpl; [reflexivity|].
  rewrite map_app, <- IH. f_equal.
  induction poly as [|r poly IHp]; simpl; [reflexivity|].
  rewrite map_app, <- IHp. f_equal.
  rewrite !map_map. apply map_ext. intros c. apply lon_shift_coord.
Qed.

(** The test of the script, in terms of the longitudes of the geometry. *)
Lemma crosses_spec (coords : multipolygon) :
  crosses coords = true <->
  Exists (fun x => x < -170) (all_lons coords) /\
  Exists (fun x => 170 < x) (all_lons coords).
Proof.
  unfold crosses. destruct (all_lons coords) as [|x rest].
  - rewrite !Exists_nil. split; [discriminate | tauto].
  - now rewrite andb_true_iff, min_from_below, max_from_above.
Qed.

Lemma shift_coord_shifted (c : coord) : shifted c (shift_coord c).
Proof.
  unfold shifted, shift_coord. destruct (Qltb (lon c) 0) eqn:E.
  - apply Qltb_lt in E. simpl. tauto.
  - apply Qltb_ge in E. repeat split; auto.
    intros H. exfalso. now apply (Qlt_not_le _ _ H).
Qed.

Lemma shift_all_shape (coords : multipolygon) :
  Forall2 (Forall2 (Forall2 shifted)) coords (shift_all coords).
Proof.
  unfold shift_all.
  induction coords as [|poly coords IH]; simpl; constructor; [|exact IH].
  clear IH. induction poly as [|r poly IHp]; simpl; constructor; [|exact IHp].
  clear IHp. induction r as [|c r IHr]; simpl; constructor; [|exact IHr].
  apply shift_coord_shifted.
Qed.

Lemma shift_lon_ge (b x : Q) : b <= 0 -> b - 360 <= x -> b <= shift_lon x.
Proof.
  intros Hb Hx. unfold shift_lon. destruct (Qltb x 0) eqn:E.
  - lra.
  - apply Qltb_ge in E. lra.
Qed.

End ShiftUnifyFacts.




(** C6, as the claim states it, fails when a longitude is below -530: the
    first application leaves -600 + 360 = -240, which is still below -170, so
    the second application fires again and moves the point to 120. *)
Lemma shift_unify_twice_differs :
  ShiftUnify.all_lons (ShiftUnify.fix_coordinates twice_west_coords)
    = [-240; 175; 175; -240] /\
  ShiftUnify.crosses (ShiftUnify.fix_coordinates twice_west_coords) = true /\
  ShiftUnify.all_lons
    (ShiftUnify.fix_coordinates (ShiftUnify.fix_coordinates twice_west_coords))
    = [120; 175; 175; 120] /\
  ShiftUnify.fix_feature (ShiftUnify.fix_feature (feature_of "x" twice_west_coords))
    <> ShiftUnify.fix_feature (feature_of "x" twice_west_coords).
Proof.
  repeat split; try reflexivity.
  intros H. apply (f_equal geometry) in H. vm_compute in H. discriminate H.
Qed.

(** C6 (amended): for every MultiPolygon feature all of whose longitudes
    are at least -530 (in particular for longitudes within [-180, 180]),
    applying ShiftUnify to the result of a first application changes nothing,
    and the trigger [min < -170 and max > 170] does not hold on that result. *)
Theorem shift_unify_idempotent (f : feature) (coords : multipolygon) :
  geometry f = MultiPolygon coords ->
  Forall (fun x => -530 <= x) (ShiftUnify.all_lons coords) ->
  ShiftUnify.fix_feature (ShiftUnify.fix_feature f) = ShiftUnify.fix_feature f /\
  ShiftUnify.crosses (ShiftUnify.fix_coordinates coords) = false /\
  ShiftUnify.fix_coordinates (ShiftUnify.fix_coordinates coords)
    = ShiftUnify.fix_coordinates coords.
Proof.
  intros Hg Hrange.
  assert (Hc : ShiftUnify.crosses (ShiftUnify.fix_coordinates coords) = false).
  { unfold ShiftUnify.fix_coordinates.
    destruct (ShiftUnify.crosses coords) eqn:E; [|exact E].
    apply not_true_is_false. intros Hc. apply crosses_spec in Hc as [Hmin _].
    rewrite all_lons_shift_all in Hmin.
    apply List.Exists_exists in Hmin as (y & Hy & Hlt).
    apply in_map_iff in Hy as (x & <- & Hx).
    rewrite List.Forall_forall in Hrange. specialize (Hrange x Hx). simpl in Hrange.
    assert (-170 <= shift_lon x) by (apply shift_lon_ge; lra).
    lra. }
  assert (Hfix : ShiftUnify.fix_coordinates (ShiftUnify.fix_coordinates coords)
                 = ShiftUnify.fix_coordinates coords).
  { unfold ShiftUnify.fix_coordinates at 1. now rewrite Hc. }
  split; [|split; assumption].
  unfold ShiftUnify.fix_feature at 1 2. rewrite Hg. simpl.
  unfold ShiftUnify.fix_feature. rewrite Hg. now rewrite Hfix.
Qed.

Lemma shift_unify_idempotent_witness :
  ShiftUnify.fix_feature (ShiftUnify.fix_feature (feature_of "fiji" scenario_C))
    = ShiftUnify.fix_feature (feature_of "fiji" scenario_C) /\
  ShiftUnify.crosses (ShiftUnify.fix_coordinates scenario_C) = false /\
  ShiftUnify.fix_coordinates (ShiftUnify.fix_coordinates scenario_C)
    = ShiftUnify.fix_coordinates scenario_C.
Proof.
  apply (shift_unify_idempotent (feature_of "fiji" scenario_C) scenario_C).
  - reflexivity.
  - repeat constructor; discriminate.
Defined.

(** ** SplitPartition *)

Section SplitPartitionFacts.
Import SplitPartition.

Lemma partition_points_from (outer_ring east west : ring) :
  fold_left
    (fun (acc : ring * ring) (c : coord) =>
       if Qgtb (lon c) 0 then (fst acc ++ [c], snd acc) else (fst acc, snd acc ++ [c]))
    outer_ring (east, west)
  = (east ++ List.filter east_of_zero outer_ring,
     west ++ List.filter (fun c => negb (east_of_zero c)) outer_ring).
Proof.
  revert east west. induction outer_ring as [|c r IH]; intros east west; simpl.
  - now rewrite !app_nil_r.
  - change (east_of_zero c) with (Qgtb (lon c) 0).
    destruct (Qgtb (lon c) 0); simpl; rewrite IH; simpl; now rewrite <- !app_assoc.
Qed.

Lemma partition_points_filter (outer_ring : ring) :
  partition_points outer_ring
  = (List.filter east_of_zero outer_ring,
     List.filter (fun c => negb (east_of_zero c)) outer_ring).
Proof. unfold partition_points. now rewrite partition_points_from. Qed.

Lemma span_test_total (c : coord) (r : ring) :
  exists b, span_test (c :: r) = Ok b.
Proof. unfold span_test. simpl. eauto. Qed.

Lemma polygon_step_contribution (st : bool * list multipolygon) (poly : polygon) :
  nonempty_outer poly ->
  polygon_step st poly = Ok (fst st || triggers poly, snd st ++ contribution poly).
Proof.
  intros H. destruct poly as [|[|c r] holes]; try contradiction H.
  destruct (span_test_total c r) as [b Hb].
  unfold contribution, triggers, polygon_step. rewrite Hb.
  rewrite partition_points_filter.
  destruct b; simpl.
  - now rewrite orb_true_r.
  - now rewrite orb_false_r.
Qed.

Lemma scan_polygons_contributions (st : bool * list multipolygon) (coords : multipolygon) :
  Forall nonempty_outer coords ->
  scan_polygons st coords
  = Ok (fst st || existsb triggers coords, snd st ++ concat (map contribution coords)).
Proof.
  intros H. revert st. induction H as [|poly coords Hp _ IH]; intros st; simpl.
  - rewrite orb_false_r, app_nil_r. now destruct st.
  - rewrite polygon_step_contribution by exact Hp. simpl.
    rewrite IH. simpl. now rewrite orb_assoc, app_assoc.
Qed.

Lemma length_close_ring (r : ring) : (length r <= length (close_ring r))%nat.
Proof.
  unfold close_ring. destruct r as [|c r]; [reflexivity|].
  destruct (ends_differ (c :: r)); [|reflexivity].
  rewrite length_app. lia.
Qed.

Lemma contribution_single_polygon (poly : polygon) (part : multipolygon) :
  In part (contribution poly) -> exists single, part = [single].
Proof.
  unfold contribution. destruct (triggers poly).
  - destruct poly as [|outer holes]; [intros []|].
    unfold side_parts. intros H. apply in_app_or in H as [H | H];
      repeat match type of H with
             | In _ (if ?b then _ else _) => destruct b
             | In _ [_] => destruct H as [<- | []]; eauto
             | In _ [] => destruct H
             end.
  - intros [<- | []]. eauto.
Qed.

End SplitPartitionFacts.

(** C10: in the sign partition of SplitPartition the east group receives
    exactly the points of longitude strictly greater than 0, the west group
    all others, in ring order; in particular every coordinate of longitude 0
    is in the west group and not in the east group. *)
Theorem zero_longitude_goes_west (outer_ring : ring) (c : coord) :
  In c outer_ring ->
  lon c == 0 ->
  let '(east_points, west_points) := SplitPartition.partition_points outer_ring in
  In c west_points /\ ~ In c east_points /\
  east_points = List.filter (fun d => Qgtb (lon d) 0) outer_ring /\
  west_points = List.filter (fun d => negb (Qgtb (lon d) 0)) outer_ring /\
  (forall d, In d east_points <-> In d outer_ring /\ 0 < lon d) /\
  (forall d, In d west_points <-> In d outer_ring /\ lon d <= 0).
Proof.
  intros Hin Hzero. rewrite partition_points_filter.
  assert (Hc : east_of_zero c = false).
  { apply Qgtb_le. rewrite Hzero. apply Qle_refl. }
  split; [apply filter_In; now rewrite Hc|].
  split; [intros H; apply filter_In in H as [_ H]; congruence|].
  split; [reflexivity|]. split; [reflexivity|].
  split; intros d; rewrite filter_In.
  - unfold east_of_zero. now rewrite Qgtb_gt.
  - unfold east_of_zero. now rewrite negb_true_iff, Qgtb_le.
Qed.

Lemma zero_longitude_goes_west_witness :
  let '(east_points, west_points) := SplitPartition.partition_points greenwich_ring in
  In (0, 5) west_points /\ ~ In (0, 5) east_points /\
  east_points = List.filter (fun d => Qgtb (lon d) 0) greenwich_ring /\
  west_points = List.filter (fun d => negb (Qgtb (lon d) 0)) greenwich_ring /\
  (forall d, In d east_points <-> In d greenwich_ring /\ 0 < lon d) /\
  (forall d, In d west_points <-> In d greenwich_ring /\ lon d <= 0).
Proof.
  apply (zero_longitude_goes_west greenwich_ring (0, 5)).
  - simpl. tauto.
  - reflexivity.
Defined.

Lemma geometry_imap (g : nat -> multipolygon -> feature) (parts : list multipolygon) :
  (forall i x, geometry (g i x) = MultiPolygon x) ->
  map geometry (imap g parts) = map MultiPolygon parts.
Proof.
  revert g. induction parts as [|part parts IH]; intros g Hg; [reflexivity|].
  rewrite imap_cons. simpl. rewrite Hg. f_equal.
  apply IH. intros i x. apply Hg.
Qed.

Lemma In_concat_contribution (coords : multipolygon) (part : multipolygon) :
  In part (concat (map contribution coords)) ->
  exists single, part = [single].
Proof.
  intros H. apply in_concat in H as (c & Hc & Hpart).
  apply in_map_iff in Hc as (poly & <- & _).
  now apply contribution_single_polygon in Hpart.
Qed.

(** The features written for a MultiPolygon in which some polygon triggers
    the span test. *)
Lemma process_feature_crossing (f : feature) (coords : multipolygon) :
  geometry f = MultiPolygon coords ->
  Forall nonempty_outer coords ->
  existsb triggers coords = true ->
  SplitPartition.process_feature f
  = Ok (imap (SplitPartition.part_feature (properties f)
                (length (concat (map contribution coords))))
          (concat (map contribution coords))).
Proof.
  intros Hg Hne Hex. unfold SplitPartition.process_feature. rewrite Hg.
  rewrite scan_polygons_contributions by exact Hne. simpl. now rewrite Hex.
Qed.

(** C9, as the claim states it, fails on a polygon that triggers the span
    test: a closed four-point ring across the seam has two points on each
    side, both groups are discarded by the [len(...) > 3] guards, and the
    MultiPolygon is replaced by no feature at all. *)
Lemma partition_drops_thin_polygon :
  triggers [thin_ring] = true /\
  SplitPartition.process_geojson [feature_of "atoll" [[thin_ring]]] = Ok [].
Proof. split; reflexivity. Qed.

(** C9 (amended): under SplitPartition, whenever at least one polygon of a
    MultiPolygon feature triggers the span test, every polygon that does not
    itself trigger it is emitted unchanged as its own single-polygon feature,
    every emitted feature holds exactly one polygon (a triggering polygon is
    replaced by its east and west rings of more than three points, possibly
    none), and when more than one feature is emitted each of them carries the
    part index (its position, from 1) added to the original properties. *)
Theorem partition_separates_polygons (f : feature) (coords : multipolygon) :
  geometry f = MultiPolygon coords ->
  Forall nonempty_outer coords ->
  Exists (fun poly => triggers poly = true) coords ->
  exists out,
    SplitPartition.process_feature f = Ok out /\
    map geometry out = map MultiPolygon (concat (map contribution coords)) /\
    (forall poly, In poly coords -> triggers poly = false ->
       exists i g, out !! i = Some g /\ geometry g = MultiPolygon [poly]) /\
    (forall i g, out !! i = Some g ->
       (exists single, geometry g = MultiPolygon [single]) /\
       properties g =
         if (1 <? length out)%nat
         then <[ "_part"%string := JInt (Z.of_nat i + 1) ]> (properties f)
         else properties f).
Proof.
  intros Hg Hne Hex.
  assert (Hb : existsb triggers coords = true).
  { apply List.Exists_exists in Hex as (poly & Hin & Ht).
    apply existsb_exists. eauto. }
  exists (imap (SplitPartition.part_feature (properties f)
                  (length (concat (map contribution coords))))
            (concat (map contribution coords))).
  split; [now apply process_feature_crossing|].
  split; [now apply geometry_imap|]. split.
  - intros poly Hin Ht.
    assert (Hpart : In [poly] (concat (map contribution coords))).
    { apply in_concat. exists (contribution poly). split.
      - now apply in_map.
      - unfold contribution. rewrite Ht. now left. }
    apply list_elem_of_In, list_elem_of_lookup in Hpart as [i Hi].
    exists i. eexists. split.
    + apply list_lookup_imap_Some. exists [poly]. split; [exact Hi | reflexivity].
    + reflexivity.
  - intros i g Hi. apply list_lookup_imap_Some in Hi as (part & Hpart & ->).
    rewrite length_imap. split; [|reflexivity].
    apply list_elem_of_lookup_2, list_elem_of_In, In_concat_contribution in Hpart
      as [single ->].
    now exists single.
Qed.

Lemma partition_separates_polygons_witness :
  exists out,
    SplitPartition.process_feature
      (feature_of "fiji" [[scenario_D]; [greenwich_ring]]) = Ok out /\
    map geometry out
    = map MultiPolygon (concat (map contribution [[scenario_D]; [greenwich_ring]])) /\
    (forall poly, In poly [[scenario_D]; [greenwich_ring]] -> triggers poly = false ->
       exists i g, out !! i = Some g /\ geometry g = MultiPolygon [poly]) /\
    (forall i g, out !! i = Some g ->
       (exists single, geometry g = MultiPolygon [single]) /\
       properties g =
         if (1 <? length out)%nat
         then <[ "_part"%string := JInt (Z.of_nat i + 1) ]>
                (properties (feature_of "fiji" [[scenario_D]; [greenwich_ring]]))
         else properties (feature_of "fiji" [[scenario_D]; [greenwich_ring]])).
Proof.
  apply (partition_separates_polygons
           (feature_of "fiji" [[scenario_D]; [greenwich_ring]])
           [[scenario_D]; [greenwich_ring]]).
  - reflexivity.
  - repeat constructor.
  - apply Exists_cons_hd. reflexivity.
Defined.

(** C4, as the claim states it, fails on Scenario D itself: the ring spans
    more than 350 degrees, has five points east and three points west of 0,
    and SplitPartition writes one feature, without a part index; the west
    group of three points does not pass [len(west_points) > 3]. *)
Lemma scenario_D_single_feature :
  SplitPartition.span_test scenario_D = Ok true /\
  length (List.filter (fun c => Qgtb (lon c) 0) scenario_D) = 5%nat /\
  length (List.filter (fun c => Qltb (lon c) 0) scenario_D) = 3%nat /\
  exists g,
    SplitPartition.process_geojson [feature_of "fiji" [[scenario_D]]] = Ok [g] /\
    properties g !! "_part"%string = None /\
    geometry g = MultiPolygon [[east_ring scenario_D]].
Proof.
  repeat split; try reflexivity.
  eexists. split; [reflexivity|]. split; reflexivity.
Qed.

(** C4 (amended): applying SplitPartition to a MultiPolygon feature whose
    single polygon has an outer ring of span greater than 350 degrees with
    exactly 5 points of longitude > 0 and exactly 3 other points emits exactly
    one output feature, built from the east group; the west group of three
    points is discarded, no part-index property is added, and the properties
    of the output feature are those of the original feature. *)
Theorem partition_five_east_three_west (f : feature) (outer_ring : ring)
    (holes : list ring) :
  geometry f = MultiPolygon [outer_ring :: holes] ->
  SplitPartition.span_test outer_ring = Ok true ->
  length (List.filter (fun c => Qgtb (lon c) 0) outer_ring) = 5%nat ->
  length (List.filter (fun c => negb (Qgtb (lon c) 0)) outer_ring) = 3%nat ->
  SplitPartition.process_geojson [f]
  = Ok [lone_part_feature (properties f) (east_ring outer_ring)].
Proof.
  intros Hg Hspan Heast Hwest.
  assert (Hne : Forall nonempty_outer [outer_ring :: holes]).
  { constructor; [|constructor]. destruct outer_ring; [discriminate Heast | exact I]. }
  assert (Ht : triggers (outer_ring :: holes) = true).
  { unfold triggers. now rewrite Hspan. }
  assert (Hex : existsb triggers [outer_ring :: holes] = true).
  { unfold existsb. now rewrite Ht. }
  assert (Hc : contribution (outer_ring :: holes) = [[[east_ring outer_ring]]]).
  { unfold contribution. rewrite Ht.
    unfold SplitPartition.side_parts, valid_part, east_ring.
    change (fun c : coord => Qgtb (lon c) 0) with east_of_zero in Heast.
    change (length (List.filter (fun c => negb (east_of_zero c)) outer_ring) = 3%nat)
      in Hwest.
    pose proof (length_close_ring
      (map SplitPartition.shift_east (List.filter east_of_zero outer_ring))) as Hlen.
    rewrite length_map, Heast in Hlen.
    rewrite Heast, Hwest.
    destruct (Nat.ltb_spec 3
      (length (close_ring (map SplitPartition.shift_east
                             (List.filter east_of_zero outer_ring))))) as [_|Hle];
      [reflexivity | lia]. }
  unfold SplitPartition.process_geojson, SplitPartition.process_features.
  rewrite (process_feature_crossing f _ Hg Hne Hex).
  cbn [map concat]. rewrite Hc. reflexivity.
Qed.

Lemma partition_five_east_three_west_witness :
  SplitPartition.process_geojson [feature_of "fiji" [[scenario_D]]]
  = Ok [lone_part_feature (properties (feature_of "fiji" [[scenario_D]]))
          (east_ring scenario_D)].
Proof.
  apply (partition_five_east_three_west (feature_of "fiji" [[scenario_D]])
           scenario_D []); reflexivity.
Defined.

(** ** SplitInterpolate *)

Section SplitInterpolateFacts.
Import SplitInterpolate.

Lemma split_step_degenerate (st : split_state) (c1 c2 : coord) :
  degenerate_edge c1 c2 = true -> split_step st c1 c2 = Raise ZeroDivisionError.
Proof.
  unfold degenerate_edge, edge_jumps, crossing_denominator, split_step, pydiv.
  destruct c1 as [lon1 lat1], c2 as [lon2 lat2]. cbn [lon lat fst snd].
  intros H. apply andb_true_iff in H as [-> H].
  destruct (Qgtb lon1 0); now rewrite H.
Qed.

Lemma split_step_regular (st : split_state) (c1 c2 : coord) :
  degenerate_edge c1 c2 = false -> exists st', split_step st c1 c2 = Ok st'.
Proof.
  unfold degenerate_edge, edge_jumps, crossing_denominator, split_step, pydiv.
  destruct c1 as [lon1 lat1], c2 as [lon2 lat2]. cbn [lon lat fst snd].
  destruct (Qgtb (Qabs (lon2 - lon1)) 180); cbn [andb]; [|eauto].
  destruct (Qgtb lon1 0); intros ->; cbn [mbind result_bind]; eauto.
Qed.

Lemma split_loop_degenerate (st : split_state) (coords : ring) :
  has_degenerate_edge coords = true -> split_loop st coords = Raise ZeroDivisionError.
Proof.
  revert st. induction coords as [|c1 rest IH]; intros st; [discriminate|].
  destruct rest as [|c2 rest]; [discriminate|].
  cbn [has_degenerate_edge split_loop].
  destruct (degenerate_edge c1 c2) eqn:E.
  - intros _. now rewrite split_step_degenerate.
  - intros H. destruct (split_step_regular st c1 c2 E) as [st' ->].
    simpl in H. now apply IH.
Qed.

Lemma split_loop_regular (st : split_state) (coords : ring) :
  has_degenerate_edge coords = false -> exists st', split_loop st coords = Ok st'.
Proof.
  revert st. induction coords as [|c1 rest IH]; intros st; [simpl; eauto|].
  destruct rest as [|c2 rest]; [simpl; eauto|].
  cbn [has_degenerate_edge split_loop].
  intros H. apply orb_false_iff in H as [E H].
  destruct (split_step_regular st c1 c2 E) as [st' ->].
  now apply IH.
Qed.

Lemma split_degenerate (coords : ring) :
  has_degenerate_edge coords = true ->
  split_polygon_at_dateline coords = Raise ZeroDivisionError.
Proof.
  intros H. unfold split_polygon_at_dateline.
  now rewrite split_loop_degenerate.
Qed.

Lemma split_regular (coords : ring) :
  has_degenerate_edge coords = false ->
  exists west east, split_polygon_at_dateline coords = Ok (west, east).
Proof.
  intros H. unfold split_polygon_at_dateline.
  destruct (split_loop_regular split_init coords H) as [st ->]. simpl.
  destruct (split_finish st coords) as [west east]. eauto.
Qed.

(** An edge of a ring, by its position. *)
Lemma edge_degenerate (coords : ring) (i : nat) (c1 c2 : coord) :
  coords !! i = Some c1 -> coords !! S i = Some c2 ->
  degenerate_edge c1 c2 = true -> has_degenerate_edge coords = true.
Proof.
  revert coords. induction i as [|i IH]; intros [|d1 [|d2 rest]]; try discriminate.
  - intros [= ->] [= ->] H. cbn [has_degenerate_edge]. now rewrite H.
  - intros H1 H2 H.
    change (degenerate_edge d1 d2 || has_degenerate_edge (d2 :: rest) = true).
    rewrite (IH (d2 :: rest) H1 H2 H). apply orb_true_r.
Qed.

Lemma edge_crosses (coords : ring) (i : nat) (c1 c2 : coord) :
  coords !! i = Some c1 -> coords !! S i = Some c2 ->
  edge_jumps c1 c2 = true -> crosses_dateline coords = true.
Proof.
  revert coords. induction i as [|i IH]; intros [|d1 [|d2 rest]]; try discriminate.
  - intros [= ->] [= ->] H. cbn [crosses_dateline]. now rewrite H.
  - intros H1 H2 H.
    change ((if edge_jumps d1 d2 then true else crosses_dateline (d2 :: rest)) = true).
    rewrite (IH (d2 :: rest) H1 H2 H). now destruct (edge_jumps d1 d2).
Qed.

(** What the loop of [process_multipolygon] returns when no iteration
    raises, and that it raises as soon as one iteration does. *)
Lemma process_loop_parts (acc : list polygon) (todo : multipolygon)
    (contribs : list (list polygon)) :
  Forall2 (fun poly parts => polygon_parts poly = Ok parts) todo contribs ->
  process_loop acc todo = Ok (acc ++ concat contribs).
Proof.
  intros H. revert acc. induction H as [|poly parts todo contribs Hp _ IH]; intros acc.
  - simpl. now rewrite app_nil_r.
  - cbn [process_loop]. rewrite Hp. cbn [mbind result_bind].
    rewrite IH. simpl. now rewrite app_assoc.
Qed.

Lemma process_loop_raises (acc : list polygon) (todo : multipolygon)
    (poly : polygon) (e : exn) :
  In poly todo -> polygon_parts poly = Raise e ->
  exists e', process_loop acc todo = Raise e'.
Proof.
  revert acc. induction todo as [|p todo IH]; intros acc; [intros []|].
  intros Hin Hraise. cbn [process_loop].
  destruct (polygon_parts p) as [parts|e0] eqn:Hp; cbn [mbind result_bind]; [|eauto].
  destruct Hin as [-> | Hin]; [congruence|]. now apply IH.
Qed.

Lemma needs_split_false (coords : multipolygon) (outer_ring : ring)
    (holes : list ring) :
  needs_split coords = Ok false -> In (outer_ring :: holes) coords ->
  crosses_dateline outer_ring = false.
Proof.
  induction coords as [|[|o hs] coords IH]; simpl; [intros _ [] | discriminate |].
  destruct (crosses_dateline o) eqn:E; [discriminate|].
  intros H [[= <- <-] | Hin]; [exact E | now apply IH].
Qed.

Lemma process_features_raises (acc features : list feature) (f : feature) (e : exn) :
  In f features -> process_feature f = Raise e ->
  exists e', process_features acc features = Raise e'.
Proof.
  revert acc. induction features as [|g features IH]; intros acc; [intros []|].
  intros Hin Hraise. cbn [process_features].
  destruct (process_feature g) as [out|e0] eqn:Hg; cbn [mbind result_bind]; [|eauto].
  destruct Hin as [-> | Hin]; [congruence|]. now apply IH.
Qed.

Lemma polygon_parts_outcome (poly : polygon) :
  sound_polygon poly ->
  exists parts, polygon_parts poly = Ok parts /\ polygon_outcome poly parts.
Proof.
  destruct poly as [|outer_ring holes]; [intros []|]. intros Hs.
  unfold polygon_parts, polygon_outcome.
  destruct (crosses_dateline outer_ring); [|eauto].
  destruct (split_regular outer_ring Hs) as (west & east & ->).
  cbn [mbind result_bind]. eexists. split; [reflexivity|].
  exists west, east. split; [reflexivity|].
  destruct (valid_part west), (valid_part east); repeat constructor; tauto.
Qed.

Lemma process_multipolygon_outcome (coords : multipolygon) :
  Forall sound_polygon coords ->
  exists contribs,
    Forall2 (fun poly parts => polygon_parts poly = Ok parts) coords contribs /\
    Forall2 polygon_outcome coords contribs.
Proof.
  induction 1 as [|poly coords Hp _ (contribs & IH1 & IH2)].
  - exists []. split; constructor.
  - destruct (polygon_parts_outcome poly Hp) as (parts & H1 & H2).
    exists (parts :: contribs). split; constructor; assumption.
Qed.

(** Closing a ring. *)
Lemma coord_eqb_refl (c : coord) : coord_eqb c c = true.
Proof.
  unfold coord_eqb. apply andb_true_iff. split; apply Qeq_bool_iff, Qeq_refl.
Qed.

Lemma py_last_snoc {A} (l : list A) (x : A) : py_last (l ++ [x]) = Some x.
Proof. unfold py_last. rewrite map_app. apply last_last. Qed.

Lemma close_ring_closed (r : ring) : r <> [] -> closed (close_ring r).
Proof.
  destruct r as [|c r]; [congruence|]. intros _. unfold close_ring.
  destruct (ends_differ (c :: r)) eqn:E.
  - split; [discriminate|].
    pose proof (py_last_snoc (c :: r) c) as Hlast.
    unfold ends_differ. cbn [app] in *. rewrite Hlast.
    now rewrite coord_eqb_refl.
  - split; [discriminate | exact E].
Qed.

End SplitInterpolateFacts.

(** What holds of every coordinate of the parts, when it holds of the
    coordinates of the ring and of every point on the seam. *)
Section SplitInvariant.
Import SplitInterpolate.

Variable P : coord -> Prop.
Hypothesis P_east_seam : forall y : Q, P (180, y).
Hypothesis P_west_seam : forall y : Q, P (-180, y).

Lemma flush_part_all (st : split_state) (cur next : ring) :
  state_all P st -> Forall P cur -> Forall P next -> state_all P (flush_part st cur next).
Proof.
  intros (Hw & He & _) Hcur Hnext. unfold state_all, flush_part. simpl.
  destruct (is_west st); auto.
Qed.

Lemma split_step_all (st st' : split_state) (c1 c2 : coord) :
  state_all P st -> P c1 -> split_step st c1 c2 = Ok st' -> state_all P st'.
Proof.
  intros Hst Hc1. pose proof Hst as (Hw & He & Hc).
  unfold split_step. destruct c1 as [lon1 lat1], c2 as [lon2 lat2].
  assert (Hcur : Forall P (current_part st ++ [(lon1, lat1)])).
  { apply Forall_app. split; [exact Hc | now constructor]. }
  destruct (Qgtb (Qabs (lon2 - lon1)) 180).
  - destruct (Qgtb lon1 0).
    + destruct (pydiv (180 - lon1) (lon2 + 360 - lon1)) as [ratio|e];
        cbn [mbind result_bind]; [|discriminate].
      intros [= <-]. apply flush_part_all; [exact Hst | | now constructor].
      apply Forall_app. split; [exact Hcur | now constructor].
    + destruct (pydiv (-180 - lon1) (lon2 - 360 - lon1)) as [ratio|e];
        cbn [mbind result_bind]; [|discriminate].
      intros [= <-]. apply flush_part_all; [exact Hst | | now constructor].
      apply Forall_app. split; [exact Hcur | now constructor].
  - intros [= <-]. unfold state_all. simpl. auto.
Qed.

Lemma split_loop_all (st st' : split_state) (coords : ring) :
  state_all P st -> Forall P coords -> split_loop st coords = Ok st' -> state_all P st'.
Proof.
  revert st. induction coords as [|c1 rest IH]; intros st Hst Hall.
  - now intros [= <-].
  - destruct rest as [|c2 rest]; [now intros [= <-]|].
    cbn [split_loop].
    destruct (split_step st c1 c2) as [st1|e] eqn:Hstep;
      cbn [mbind result_bind]; [|discriminate].
    inversion Hall as [|? ? Hc1 Hrest]; subst.
    apply IH; [|exact Hrest]. exact (split_step_all st st1 c1 c2 Hst Hc1 Hstep).
Qed.

Lemma py_last_In (coords : ring) (c : coord) : py_last coords = Some c -> In c coords.
Proof.
  unfold py_last. induction coords as [|d [|d' rest] IH].
  - discriminate.
  - intros [= ->]. now left.
  - intros H. right. apply IH. exact H.
Qed.

Lemma join_part_all (part cur : ring) :
  Forall P part -> Forall P cur -> Forall P (join_part part cur).
Proof.
  intros Hp Hc. destruct part as [|c part]; [exact Hc|].
  unfold join_part. apply Forall_app. split; [exact Hp|].
  destruct cur as [|d cur]; [constructor|]. now inversion Hc.
Qed.

Lemma close_ring_all (r : ring) : Forall P r -> Forall P (close_ring r).
Proof.
  intros H. destruct r as [|c r]; [constructor|]. unfold close_ring.
  destruct (ends_differ (c :: r)); [|exact H].
  apply Forall_app. split; [exact H|]. constructor; [|constructor]. now inversion H.
Qed.

Lemma split_finish_all (st : split_state) (coords : ring) :
  state_all P st -> Forall P coords ->
  Forall P (fst (split_finish st coords)) /\ Forall P (snd (split_finish st coords)).
Proof.
  intros (Hw & He & Hc) Hall. unfold split_finish.
  assert (Hcur : Forall P match py_last coords with
                          | Some c => current_part st ++ [c]
                          | None => current_part st
                          end).
  { destruct (py_last coords) as [c|] eqn:E; [|exact Hc].
    apply Forall_app. split; [exact Hc|]. constructor; [|constructor].
    rewrite List.Forall_forall in Hall. apply Hall. now apply py_last_In. }
  simpl. destruct (is_west st); split; apply close_ring_all;
    try assumption; now apply join_part_all.
Qed.

Lemma split_all (coords west east : ring) :
  Forall P coords ->
  split_polygon_at_dateline coords = Ok (west, east) ->
  Forall P west /\ Forall P east.
Proof.
  intros Hall. unfold split_polygon_at_dateline.
  destruct (split_loop split_init coords) as [st|e] eqn:Hloop;
    cbn [mbind result_bind]; [|discriminate].
  intros [= <- <-]. apply split_finish_all; [|exact Hall].
  apply (split_loop_all split_init st coords); [|exact Hall|exact Hloop].
  unfold state_all, split_init. simpl. auto.
Qed.

End SplitInvariant.

(** Every non-empty part returned by [split_polygon_at_dateline] is a closed
    ring, on every ring and whatever the number of crossings. *)
Lemma split_parts_closed (coords west east : ring) :
  SplitInterpolate.split_polygon_at_dateline coords = Ok (west, east) ->
  (west <> [] -> closed west) /\ (east <> [] -> closed east).
Proof.
  unfold SplitInterpolate.split_polygon_at_dateline.
  destruct (SplitInterpolate.split_loop SplitInterpolate.split_init coords)
    as [st|e]; cbn [mbind result_bind]; [|discriminate].
  unfold SplitInterpolate.split_finish. intros [= <- <-].
  split; intros H; apply close_ring_closed; intros E; apply H; now rewrite E.
Qed.


(** C3, as the claim states it, fails on a ring with an edge from longitude
    180 to longitude -180: the division raises, nothing catches the exception,
    and the run ends without output; the feature that follows is not
    processed. *)
Lemma degenerate_edge_aborts_run :
  SplitInterpolate.edge_jumps (180, 0) (-180, 0) = true /\
  crossing_denominator (180, 0) (-180, 0) == 0 /\
  SplitInterpolate.split_polygon_at_dateline seam_ring = Raise ZeroDivisionError /\
  SplitInterpolate.process_geojson
    [feature_of "seam" [[seam_ring]]; feature_of "inland" [[inland_ring]]]
  = Raise ZeroDivisionError /\
  ~ exists out,
      SplitInterpolate.process_geojson
        [feature_of "seam" [[seam_ring]]; feature_of "inland" [[inland_ring]]]
      = Ok out.
Proof.
  repeat split; try reflexivity.
  intros [out H]. discriminate H.
Qed.

(** C3 (amended): for every edge declared a crossing whose interpolation
    denominator is zero after the +/-360 unwrap adjustment,
    [split_polygon_at_dateline] raises ZeroDivisionError on the ring, so no
    coordinate (and no NaN) is produced for it; the exception is not handled:
    [process_multipolygon] raises on every MultiPolygon that has this ring as
    an outer ring, and [process_geojson] raises on every feature collection
    that contains such a feature, writing no output. *)
Theorem degenerate_edge_raises (features : list feature) (f : feature)
    (coords : multipolygon) (outer_ring : ring) (holes : list ring)
    (i : nat) (c1 c2 : coord) :
  outer_ring !! i = Some c1 ->
  outer_ring !! S i = Some c2 ->
  SplitInterpolate.edge_jumps c1 c2 = true ->
  crossing_denominator c1 c2 == 0 ->
  In (outer_ring :: holes) coords ->
  geometry f = MultiPolygon coords ->
  In f features ->
  SplitInterpolate.split_polygon_at_dateline outer_ring = Raise ZeroDivisionError /\
  (exists e, SplitInterpolate.process_multipolygon coords = Raise e) /\
  (exists e, SplitInterpolate.process_geojson features = Raise e).
Proof.
  intros H1 H2 Hjump Hzero Hpoly Hg Hf.
  assert (Hdeg : has_degenerate_edge outer_ring = true).
  { apply (edge_degenerate outer_ring i c1 c2 H1 H2).
    unfold degenerate_edge. rewrite Hjump. now apply Qeq_bool_iff in Hzero as ->. }
  assert (Hsplit : SplitInterpolate.split_polygon_at_dateline outer_ring
                   = Raise ZeroDivisionError) by now apply split_degenerate.
  assert (Hcross : SplitInterpolate.crosses_dateline outer_ring = true)
    by exact (edge_crosses outer_ring i c1 c2 H1 H2 Hjump).
  assert (Hparts : SplitInterpolate.polygon_parts (outer_ring :: holes)
                   = Raise ZeroDivisionError).
  { unfold SplitInterpolate.polygon_parts. now rewrite Hcross, Hsplit. }
  assert (Hmp : exists e, SplitInterpolate.process_multipolygon coords = Raise e)
    by exact (process_loop_raises [] coords _ _ Hpoly Hparts).
  split; [exact Hsplit|]. split; [exact Hmp|].
  assert (Hfeat : exists e, SplitInterpolate.process_feature f = Raise e).
  { unfold SplitInterpolate.process_feature. rewrite Hg.
    destruct (SplitInterpolate.needs_split coords) as [[|]|e] eqn:Hn;
      cbn [mbind result_bind]; [| |eauto].
    - destruct Hmp as [e ->]. eauto.
    - rewrite (needs_split_false coords outer_ring holes Hn Hpoly) in Hcross.
      discriminate Hcross. }
  destruct Hfeat as [e He].
  exact (process_features_raises [] features f e Hf He).
Qed.

Lemma degenerate_edge_raises_witness :
  SplitInterpolate.split_polygon_at_dateline seam_ring = Raise ZeroDivisionError /\
  (exists e, SplitInterpolate.process_multipolygon [[seam_ring]] = Raise e) /\
  (exists e, SplitInterpolate.process_geojson
               [feature_of "inland" [[inland_ring]]; feature_of "seam" [[seam_ring]]]
             = Raise e).
Proof.
  apply (degenerate_edge_raises
           [feature_of "inland" [[inland_ring]]; feature_of "seam" [[seam_ring]]]
           (feature_of "seam" [[seam_ring]]) [[seam_ring]] seam_ring [] 0
           (180, 0) (-180, 0)).
  - reflexivity.
  - reflexivity.
  - reflexivity.
  - reflexivity.
  - simpl. tauto.
  - reflexivity.
  - simpl. tauto.
Defined.

(** C1: on the ring of Scenario A [split_polygon_at_dateline] returns two
    closed rings; the ring on the -180 side holds both seam points (-180, 0)
    and (-180, 10), but the ring on the +180 side is
    [(179,0); (180,0); (179,10); (179,0)]: it holds (180, 0) and not
    (180, 10), which the final [west_part + current_part[1:]] leaves out. *)
Theorem scenario_A_loses_seam_point :
  exists west east,
    SplitInterpolate.split_polygon_at_dateline scenario_A = Ok (west, east) /\
    ring_eqb west [(179, 0); (180, 0); (179, 10); (179, 0)] = true /\
    ring_eqb east [(-180, 0); (-179, 0); (-179, 10); (-180, 10); (-180, 0)] = true /\
    closed west /\ closed east /\
    has_point west (180, 0) = true /\ has_point west (180, 10) = false /\
    has_point east (-180, 0) = true /\ has_point east (-180, 10) = true /\
    has_point east (180, 0) = false /\ has_point east (180, 10) = false.
Proof.
  eexists. eexists. split; [reflexivity|].
  repeat split; try reflexivity; discriminate.
Qed.

(** On Scenario A, which starts east of the seam, the part returned as
    west holds the longitudes 179 and 180 and the part returned as east the
    longitudes -180 and -179: the first part is taken for the west one
    whatever the side the ring starts on. *)
Lemma scenario_A_sides_swapped :
  SplitInterpolate.crosses_dateline scenario_A = true /\
  exists west east,
    SplitInterpolate.split_polygon_at_dateline scenario_A = Ok (west, east) /\
    Forall (in_range 179 180) west /\
    Forall (in_range (-180) (-179)) east.
Proof.
  split; [reflexivity|].
  eexists. eexists. split; [reflexivity|].
  split; repeat constructor; discriminate.
Qed.

(** C2, as the claim states it, fails on a ring around the pole: it starts
    west of the seam, is flagged by the edge-jump policy, and is cut at the
    seam only, so the part returned as west runs through the longitudes -10,
    80 and 170 before it reaches the seam point at 180. *)
Lemma polar_ring_west_part_spans_east :
  SplitInterpolate.crosses_dateline polar_ring = true /\
  exists west east,
    SplitInterpolate.split_polygon_at_dateline polar_ring = Ok (west, east) /\
    has_point west (80, -80) = true /\
    has_point west (170, -80) = true /\
    ~ Forall (in_range (-180) 0) west.
Proof.
  split; [reflexivity|].
  eexists. eexists. split; [reflexivity|].
  split; [reflexivity|]. split; [reflexivity|].
  intros H. do 3 (inversion H as [|? ? _ H']; subst; clear H; rename H' into H).
  inversion H as [|c l [_ Hc] _]; subst. now apply Hc.
Qed.

(** C2 (amended): for every ring without a degenerate crossing edge, in
    particular for every such ring flagged by the edge-jump policy,
    [split_polygon_at_dateline] returns a pair (west, east) such that each
    non-empty part is a closed ring (its first element equals its last), and
    every coordinate of either part is a coordinate of the input ring or a
    seam point of longitude exactly 180 or -180. *)
Theorem split_parts_closed_from_input (coords : ring) :
  has_degenerate_edge coords = false ->
  exists west east,
    SplitInterpolate.split_polygon_at_dateline coords = Ok (west, east) /\
    (west <> [] -> closed west) /\
    (east <> [] -> closed east) /\
    Forall (input_or_seam coords) west /\
    Forall (input_or_seam coords) east.
Proof.
  intros Hreg. destruct (split_regular coords Hreg) as (west & east & Hsplit).
  exists west, east. split; [exact Hsplit|].
  destruct (split_parts_closed coords west east Hsplit) as [Hw He].
  split; [exact Hw|]. split; [exact He|].
  refine (split_all (input_or_seam coords) _ _ coords west east _ Hsplit).
  - intros y. right. now left.
  - intros y. right. now right.
  - apply List.Forall_forall. intros c Hc. now left.
Qed.

Lemma split_parts_closed_from_input_witness :
  exists west east,
    SplitInterpolate.split_polygon_at_dateline polar_ring = Ok (west, east) /\
    (west <> [] -> closed west) /\
    (east <> [] -> closed east) /\
    Forall (input_or_seam polar_ring) west /\
    Forall (input_or_seam polar_ring) east.
Proof.
  apply (split_parts_closed_from_input polar_ring). reflexivity.
Defined.

(** C7, as the claim states it, fails on a hole: the ring [lagoon] has no
    edge jump, it is a hole of a polygon whose outer ring is flagged, and no
    polygon of the result contains it. *)
Lemma unflagged_hole_dropped :
  SplitInterpolate.crosses_dateline lagoon = false /\
  exists out,
    SplitInterpolate.process_multipolygon [[wide_ring; lagoon]] = Ok out /\
    length out = 2%nat /\
    forallb (fun poly : polygon => negb (existsb (ring_eqb lagoon) poly)) out = true /\
    exists g,
      SplitInterpolate.process_geojson [feature_of "atoll" [[wide_ring; lagoon]]]
      = Ok [g] /\
      geometry g = MultiPolygon out.
Proof.
  split; [reflexivity|]. eexists. split; [reflexivity|].
  split; [reflexivity|]. split; [reflexivity|].
  eexists. split; reflexivity.
Qed.

(** C7 (amended): for every polygon whose outer ring has no consecutive
    coordinate pair with an absolute longitude difference above 180 degrees,
    [process_multipolygon] returns the polygon unchanged, so that each of
    its rings, the outer ring and the holes, is returned unchanged at its
    original position within the polygon (no polygon of the MultiPolygon
    being empty or having a degenerate crossing edge). *)
Theorem unflagged_polygon_unchanged (coords : multipolygon) (outer_ring : ring)
    (holes : list ring) :
  Forall sound_polygon coords ->
  In (outer_ring :: holes) coords ->
  SplitInterpolate.crosses_dateline outer_ring = false ->
  exists out,
    SplitInterpolate.process_multipolygon coords = Ok out /\
    In (outer_ring :: holes) out /\
    forall (j : nat) (r : ring),
      (outer_ring :: holes) !! j = Some r ->
      exists poly, In poly out /\ poly !! j = Some r.
Proof.
  intros Hs Hin Hc.
  destruct (process_multipolygon_outcome coords Hs) as (contribs & Hparts & Hout).
  exists (concat contribs).
  assert (Hres : In (outer_ring :: holes) (concat contribs)).
  { clear Hparts Hs. induction Hout as [|poly parts coords contribs Hp _ IH];
      [destruct Hin|].
    simpl. apply in_or_app. destruct Hin as [-> | Hin].
    - left. unfold polygon_outcome in Hp. rewrite Hc in Hp. subst parts. now left.
    - right. now apply IH. }
  split; [exact (process_loop_parts [] coords contribs Hparts)|].
  split; [exact Hres|]. intros j r Hj. eauto.
Qed.

Lemma unflagged_polygon_unchanged_witness :
  exists out,
    SplitInterpolate.process_multipolygon [[scenario_A]; [inland_ring; pond]]
    = Ok out /\
    In [inland_ring; pond] out /\
    forall (j : nat) (r : ring),
      [inland_ring; pond] !! j = Some r ->
      exists poly, In poly out /\ poly !! j = Some r.
Proof.
  apply (unflagged_polygon_unchanged [[scenario_A]; [inland_ring; pond]]
           inland_ring [pond]).
  - repeat constructor.
  - simpl. tauto.
  - reflexivity.
Defined.

(** C8: under SplitInterpolate the result of [process_multipolygon] is the
    concatenation, in order, of what each polygon yields: a polygon whose
    outer ring is flagged yields only polygons of a single ring, a part of
    the split outer ring, so none of its holes is carried over; a polygon
    whose outer ring is not flagged yields itself, holes included. *)
Theorem holes_dropped_iff_split (coords : multipolygon) :
  Forall sound_polygon coords ->
  exists contribs,
    SplitInterpolate.process_multipolygon coords = Ok (concat contribs) /\
    Forall2 polygon_outcome coords contribs.
Proof.
  intros Hs.
  destruct (process_multipolygon_outcome coords Hs) as (contribs & Hparts & Hout).
  exists contribs. split; [|exact Hout].
  exact (process_loop_parts [] coords contribs Hparts).
Qed.

Lemma holes_dropped_iff_split_witness :
  exists contribs,
    SplitInterpolate.process_multipolygon [[wide_ring; lagoon]; [inland_ring; pond]]
    = Ok (concat contribs) /\
    Forall2 polygon_outcome [[wide_ring; lagoon]; [inland_ring; pond]] contribs.
Proof.
  apply (holes_dropped_iff_split [[wide_ring; lagoon]; [inland_ring; pond]]).
  repeat constructor.
Defined.

(** * Further properties *)

(** ** The edge-jump detector *)

Section DetectorFacts.
Import SplitInterpolate.

Lemma crosses_dateline_cons (c1 c2 : coord) (rest : ring) :
  crosses_dateline (c1 :: c2 :: rest)
  = edge_jumps c1 c2 || crosses_dateline (c2 :: rest).
Proof.
  change (crosses_dateline (c1 :: c2 :: rest))
    with (if edge_jumps c1 c2 then true else crosses_dateline (c2 :: rest)).
  now destruct (edge_jumps c1 c2).
Qed.


Lemma edge_jumps_sym (c d : coord) : edge_jumps c d = edge_jumps d c.
Proof. unfold edge_jumps. now rewrite Qabs_Qminus. Qed.

Lemma crosses_dateline_snoc (l : ring) (d c : coord) :
  crosses_dateline (l ++ [d; c]) = crosses_dateline (l ++ [d]) || edge_jumps d c.
Proof.
  induction l as [|a [|b l] IH].
  - cbn [app]. rewrite crosses_dateline_cons.
    change (crosses_dateline [c]) with false.
    change (crosses_dateline [d]) with false. now rewrite orb_false_r.
  - cbn [app]. rewrite !crosses_dateline_cons.
    change (crosses_dateline [c]) with false.
    change (crosses_dateline [d]) with false. now rewrite !orb_false_r.
  - cbn [app] in *. rewrite (crosses_dateline_cons a b), IH.
    rewrite (crosses_dateline_cons a b). now rewrite orb_assoc.
Qed.

End DetectorFacts.


(** X2: the detector does not depend on the direction in which the ring is
    walked. *)
Theorem crosses_dateline_rev (coords : ring) :
  SplitInterpolate.crosses_dateline (rev coords)
  = SplitInterpolate.crosses_dateline coords.
Proof.
  induction coords as [|c [|d l] IH]; try reflexivity.
  rewrite crosses_dateline_cons, <- IH.
  change (rev (c :: d :: l)) with ((rev l ++ [d]) ++ [c]).
  change (rev (d :: l)) with (rev l ++ [d]).
  rewrite <- app_assoc. cbn [app].
  rewrite crosses_dateline_snoc, (edge_jumps_sym c d). apply orb_comm.
Qed.

(** X3: a ring whose longitudes fit in a window of 180 degrees is never
    flagged. *)
Theorem narrow_ring_not_flagged (lo : Q) (coords : ring) :
  Forall (in_range lo (lo + 180)) coords ->
  SplitInterpolate.crosses_dateline coords = false.
Proof.
  induction coords as [|c1 [|c2 rest] IH]; try reflexivity.
  intros H. inversion H as [|? ? [H1 H1'] Hrest]; subst.
  rewrite crosses_dateline_cons, (IH Hrest), orb_false_r.
  inversion Hrest as [|? ? [H2 H2'] _]; subst.
  apply Qgtb_le, Qabs_Qle_condition. split; lra.
Qed.

Lemma narrow_ring_not_flagged_witness :
  SplitInterpolate.crosses_dateline inland_ring = false.
Proof.
  apply (narrow_ring_not_flagged 10 inland_ring).
  repeat constructor; discriminate.
Defined.

(** ** The ring splitter *)

Section SplitterFacts.
Import SplitInterpolate.

Lemma split_step_plain (st : split_state) (c1 c2 : coord) :
  edge_jumps c1 c2 = false ->
  split_step st c1 c2
  = Ok {| west_part := west_part st; east_part := east_part st;
          current_part := current_part st ++ [c1]; is_west := is_west st |}.
Proof.
  unfold edge_jumps, split_step. destruct c1 as [lon1 lat1], c2 as [lon2 lat2].
  cbn [lon fst]. now intros ->.
Qed.

Lemma split_loop_plain (st : split_state) (coords : ring) :
  crosses_dateline coords = false ->
  split_loop st coords
  = Ok {| west_part := west_part st; east_part := east_part st;
          current_part := current_part st ++ removelast coords;
          is_west := is_west st |}.
Proof.
  revert st. induction coords as [|c1 [|c2 rest] IH]; intros st.
  - intros _. simpl. rewrite app_nil_r. now destruct st.
  - intros _. simpl. rewrite app_nil_r. now destruct st.
  - rewrite crosses_dateline_cons. intros H.
    apply orb_false_iff in H as [Hj Hrest].
    change (split_loop st (c1 :: c2 :: rest))
      with (st' ← split_step st c1 c2; split_loop st' (c2 :: rest)).
    rewrite (split_step_plain st c1 c2 Hj). cbn [mbind result_bind].
    rewrite (IH _ Hrest). cbn [west_part east_part current_part is_west].
    change (removelast (c1 :: c2 :: rest)) with (c1 :: removelast (c2 :: rest)).
    now rewrite <- app_assoc.
Qed.

Lemma py_last_removelast (coords : ring) :
  match py_last coords with
  | Some c => removelast coords ++ [c] = coords
  | None => coords = []
  end.
Proof.
  destruct coords as [|c0 r]; [reflexivity|].
  destruct (exists_last (l := c0 :: r)) as (l & c & E); [discriminate|].
  rewrite E, py_last_snoc. now rewrite removelast_last.
Qed.


End SplitterFacts.

(** X4: on a ring that the detector does not flag, the splitter returns the
    ring itself, closed if it was not, as the west part, and an empty east
    part. *)
Theorem unflagged_ring_split (coords : ring) :
  SplitInterpolate.crosses_dateline coords = false ->
  SplitInterpolate.split_polygon_at_dateline coords = Ok (close_ring coords, []).
Proof.
  intros H. unfold SplitInterpolate.split_polygon_at_dateline.
  rewrite (split_loop_plain _ coords H). cbn [mbind result_bind].
  unfold SplitInterpolate.split_finish, SplitInterpolate.split_init. simpl.
  pose proof (py_last_removelast coords) as Hlast.
  destruct (py_last coords) as [c|]; [now rewrite Hlast|].
  now subst coords.
Qed.

Lemma unflagged_ring_split_witness :
  SplitInterpolate.split_polygon_at_dateline inland_ring
  = Ok (close_ring inland_ring, []).
Proof. apply (unflagged_ring_split inland_ring). reflexivity. Defined.


(** X6: when every longitude of the ring lies in [-180, 180], so does every
    longitude of the two parts. *)
Theorem split_keeps_longitude_range (coords : ring) :
  has_degenerate_edge coords = false ->
  Forall (in_range (-180) 180) coords ->
  exists west east,
    SplitInterpolate.split_polygon_at_dateline coords = Ok (west, east) /\
    Forall (in_range (-180) 180) west /\
    Forall (in_range (-180) 180) east.
Proof.
  intros Hreg Hall. destruct (split_regular coords Hreg) as (west & east & Hsplit).
  exists west, east. split; [exact Hsplit|].
  refine (split_all (in_range (-180) 180) _ _ coords west east Hall Hsplit);
    intros y; split; discriminate.
Qed.

Lemma split_keeps_longitude_range_witness :
  exists west east,
    SplitInterpolate.split_polygon_at_dateline scenario_A = Ok (west, east) /\
    Forall (in_range (-180) 180) west /\
    Forall (in_range (-180) 180) east.
Proof.
  apply (split_keeps_longitude_range scenario_A).
  - reflexivity.
  - repeat constructor; discriminate.
Defined.

(** ** The crossing interpolator *)

Section InterpolatorFacts.
Import SplitInterpolate.





End InterpolatorFacts.



(** ** SplitInterpolate on polygons and features *)

Section InterpolateFacts.
Import SplitInterpolate.





Lemma polygon_parts_quality (poly : polygon) (parts : list polygon) :
  polygon_parts poly = Ok parts ->
  Forall (fun q => (q = poly /\ unflagged poly) \/ split_part_polygon q) parts.
Proof.
  destruct poly as [|outer_ring holes]; [discriminate|].
  unfold polygon_parts. destruct (crosses_dateline outer_ring) eqn:Hc.
  - destruct (split_polygon_at_dateline outer_ring) as [[west east]|e] eqn:Hs;
      cbn [mbind result_bind]; [|discriminate].
    destruct (split_parts_closed outer_ring west east Hs) as [Hw He].
    intros [= <-]. apply Forall_app. unfold valid_part.
    split.
    + destruct (Nat.ltb_spec 3 (length west)) as [Hlen|_]; [|constructor].
      constructor; [|constructor]. right. exists west. repeat split; try assumption.
      * intros ->. simpl in Hlen. lia.
      * apply Hw. intros ->. simpl in Hlen. lia.
    + destruct (Nat.ltb_spec 3 (length east)) as [Hlen|_]; [|constructor].
      constructor; [|constructor]. right. exists east. repeat split; try assumption.
      * intros ->. simpl in Hlen. lia.
      * apply He. intros ->. simpl in Hlen. lia.
  - intros [= <-]. constructor; [|constructor]. left. now split.
Qed.

Lemma process_loop_quality (acc : list polygon) (todo : multipolygon)
    (out : list polygon) (Q : polygon -> Prop) :
  (forall poly q, In poly todo ->
     (q = poly /\ unflagged poly) \/ split_part_polygon q -> Q q) ->
  Forall Q acc ->
  process_loop acc todo = Ok out -> Forall Q out.
Proof.
  revert acc. induction todo as [|p todo IH]; intros acc HQ Hacc.
  - now intros [= <-].
  - cbn [process_loop]. destruct (polygon_parts p) as [parts|e0] eqn:Hp;
      cbn [mbind result_bind]; [|discriminate].
    apply IH.
    + intros poly q Hin. apply HQ. now right.
    + apply Forall_app. split; [exact Hacc|].
      pose proof (polygon_parts_quality p parts Hp) as Hparts.
      rewrite List.Forall_forall in Hparts. apply List.Forall_forall.
      intros q Hq. apply (HQ p q); [now left | now apply Hparts].
Qed.

Lemma process_loop_unflagged (acc : list polygon) (todo : multipolygon) :
  Forall unflagged todo -> process_loop acc todo = Ok (acc ++ todo).
Proof.
  intros H. revert acc. induction H as [|p todo Hp _ IH]; intros acc.
  - simpl. now rewrite app_nil_r.
  - cbn [process_loop]. destruct p as [|outer_ring holes]; [destruct Hp|].
    unfold polygon_parts. unfold unflagged in Hp. rewrite Hp.
    cbn [mbind result_bind]. rewrite IH. now rewrite <- app_assoc.
Qed.

Lemma needs_split_unflagged (coords : multipolygon) :
  Forall unflagged coords -> needs_split coords = Ok false.
Proof.
  induction 1 as [|p coords Hp _ IH]; [reflexivity|].
  destruct p as [|outer_ring holes]; [destruct Hp|].
  unfold unflagged in Hp. cbn [needs_split]. now rewrite Hp.
Qed.

Lemma needs_split_sound (coords : multipolygon) :
  Forall sound_polygon coords ->
  (needs_split coords = Ok false /\ Forall unflagged coords) \/
  needs_split coords = Ok true.
Proof.
  induction 1 as [|p coords Hp _ IH]; [left; split; [reflexivity | constructor]|].
  destruct p as [|outer_ring holes]; [destruct Hp|].
  cbn [needs_split]. destruct (crosses_dateline outer_ring) eqn:Hc; [now right|].
  destruct IH as [[IH1 IH2] | IH]; [left | now right].
  split; [exact IH1 | now constructor].
Qed.

End InterpolateFacts.


(** X9: every polygon that [process_multipolygon] returns is either a polygon
    of the input whose outer ring is not flagged, or a single closed ring of
    more than three points: no part of three points or fewer is emitted. *)
Theorem process_multipolygon_parts_valid (coords : multipolygon) :
  Forall sound_polygon coords ->
  exists out,
    SplitInterpolate.process_multipolygon coords = Ok out /\
    Forall (fun q => (In q coords /\ unflagged q) \/ split_part_polygon q) out.
Proof.
  intros Hs.
  destruct (process_multipolygon_outcome coords Hs) as (contribs & Hparts & _).
  pose proof (process_loop_parts [] coords contribs Hparts) as Hout.
  exists (concat contribs). split; [exact Hout|].
  apply (process_loop_quality [] coords (concat contribs)); [|constructor|exact Hout].
  intros poly q Hin [[-> Hu] | Hq]; [left | right]; auto.
Qed.

Lemma process_multipolygon_parts_valid_witness :
  exists out,
    SplitInterpolate.process_multipolygon [[wide_ring; lagoon]; [inland_ring; pond]]
    = Ok out /\
    Forall (fun q => (In q [[wide_ring; lagoon]; [inland_ring; pond]] /\ unflagged q)
                     \/ split_part_polygon q) out.
Proof.
  apply (process_multipolygon_parts_valid [[wide_ring; lagoon]; [inland_ring; pond]]).
  repeat constructor.
Defined.

(** X10: a MultiPolygon none of whose outer rings is flagged is returned as it
    is by [process_multipolygon], and [process_geojson] does not even call
    it: the feature is written unchanged. *)
Theorem unflagged_multipolygon_unchanged (f : feature) (coords : multipolygon) :
  geometry f = MultiPolygon coords ->
  Forall unflagged coords ->
  SplitInterpolate.process_multipolygon coords = Ok coords /\
  SplitInterpolate.needs_split coords = Ok false /\
  SplitInterpolate.process_feature f = Ok [f].
Proof.
  intros Hg Hu. split; [exact (process_loop_unflagged [] coords Hu)|].
  pose proof (needs_split_unflagged coords Hu) as Hn. split; [exact Hn|].
  unfold SplitInterpolate.process_feature. now rewrite Hg, Hn.
Qed.

Lemma unflagged_multipolygon_unchanged_witness :
  SplitInterpolate.process_multipolygon [[inland_ring; pond]]
  = Ok [[inland_ring; pond]] /\
  SplitInterpolate.needs_split [[inland_ring; pond]] = Ok false /\
  SplitInterpolate.process_feature (feature_of "lake" [[inland_ring; pond]])
  = Ok [feature_of "lake" [[inland_ring; pond]]].
Proof.
  apply (unflagged_multipolygon_unchanged (feature_of "lake" [[inland_ring; pond]])
           [[inland_ring; pond]]).
  - reflexivity.
  - repeat constructor.
Defined.

Section InterpolatePipeline.
Import SplitInterpolate.

Lemma process_multipolygon_sound (coords : multipolygon) :
  Forall sound_polygon coords -> exists out, process_multipolygon coords = Ok out.
Proof.
  intros Hs.
  destruct (process_multipolygon_outcome coords Hs) as (contribs & Hparts & _).
  exists (concat contribs). exact (process_loop_parts [] coords contribs Hparts).
Qed.

Lemma process_feature_frame (f : feature) :
  sound_feature f ->
  exists g, process_feature f = Ok [g] /\ interpolate_frame f g.
Proof.
  unfold sound_feature, process_feature, interpolate_frame.
  destruct (geometry f) as [coords| |] eqn:Hg; intros Hs.
  - destruct (needs_split_sound coords Hs) as [[Hn Hu] | Hn]; rewrite Hn;
      cbn [mbind result_bind].
    + exists f. repeat split. exists coords.
      split; [exact (process_loop_unflagged [] coords Hu) | exact Hg].
    + destruct (process_multipolygon_sound coords Hs) as [out Hout].
      rewrite Hout. cbn [mbind result_bind]. eexists. split; [reflexivity|].
      simpl. repeat split. now exists out.
  - exists f. auto.
  - exists f. auto.
Qed.

Lemma process_features_frame (acc features : list feature) :
  Forall sound_feature features ->
  exists out,
    process_features acc features = Ok (acc ++ out) /\
    Forall2 interpolate_frame features out.
Proof.
  intros H. revert acc. induction H as [|f features Hf _ IH]; intros acc.
  - exists []. simpl. rewrite app_nil_r. split; [reflexivity | constructor].
  - destruct (process_feature_frame f Hf) as (g & Hg & Hframe).
    destruct (IH (acc ++ [g])) as (out & Hout & Hall).
    exists (g :: out). cbn [process_features]. rewrite Hg. cbn [mbind result_bind].
    rewrite Hout, <- app_assoc. split; [reflexivity | now constructor].
Qed.

End InterpolatePipeline.

(** X11: SplitInterpolate writes one feature for each feature it reads, in the
    same order: the properties and the other members of a feature are kept,
    a MultiPolygon keeps its type with the coordinates that
    [process_multipolygon] returns, and any other feature is written as it
    is. *)
Theorem interpolate_pipeline_frame (features : list feature) :
  Forall sound_feature features ->
  exists out,
    SplitInterpolate.process_geojson features = Ok out /\
    Forall2 interpolate_frame features out.
Proof.
  intros H. destruct (process_features_frame [] features H) as (out & Hout & Hall).
  exists out. split; [exact Hout | exact Hall].
Qed.

Lemma interpolate_pipeline_frame_witness :
  exists out,
    SplitInterpolate.process_geojson
      [feature_of "atoll" [[wide_ring; lagoon]]; river;
       feature_of "lake" [[inland_ring; pond]]] = Ok out /\
    Forall2 interpolate_frame
      [feature_of "atoll" [[wide_ring; lagoon]]; river;
       feature_of "lake" [[inland_ring; pond]]] out.
Proof.
  apply (interpolate_pipeline_frame
           [feature_of "atoll" [[wide_ring; lagoon]]; river;
            feature_of "lake" [[inland_ring; pond]]]).
  repeat constructor.
Defined.

(** ** SplitPartition: the span test and the two groups *)

Section PartitionFacts.
Import SplitPartition.

Lemma Exists_lon (P : Q -> Prop) (r : ring) :
  Exists P (map lon r) <-> exists c, In c r /\ P (lon c).
Proof.
  rewrite List.Exists_exists. split.
  - intros (x & Hx & HP). apply in_map_iff in Hx as (c & <- & Hc). eauto.
  - intros (c & Hc & HP). exists (lon c). split; [now apply in_map | exact HP].
Qed.

Lemma max_from_upper (x y : Q) (rest : list Q) :
  In y (x :: rest) -> y <= max_from x rest.
Proof.
  intros Hy. destruct (Qlt_le_dec (max_from x rest) y) as [Hlt|]; [|assumption].
  exfalso. apply (Qlt_irrefl (max_from x rest)).
  apply Qgtb_gt, max_from_above, List.Exists_exists. eauto.
Qed.

Lemma min_from_lower (x y : Q) (rest : list Q) :
  In y (x :: rest) -> min_from x rest <= y.
Proof.
  intros Hy. destruct (Qlt_le_dec y (min_from x rest)) as [Hlt|]; [|assumption].
  exfalso. apply (Qlt_irrefl (min_from x rest)).
  apply Qltb_lt, min_from_below, List.Exists_exists. eauto.
Qed.

Lemma span_exceeds (t : Q) (c : coord) (r : ring) :
  Qgtb (max_from (lon c) (map lon r) - min_from (lon c) (map lon r)) t = true <->
  exists a d, In a (c :: r) /\ In d (c :: r) /\ t < lon d - lon a.
Proof.
  rewrite Qgtb_gt.
  set (mx := max_from (lon c) (map lon r)). set (mn := min_from (lon c) (map lon r)).
  split.
  - intros H.
    assert (H1 : Qltb mn (mx - t) = true) by (apply Qltb_lt; lra).
    apply min_from_below in H1. change (lon c :: map lon r) with (map lon (c :: r)) in H1.
    apply Exists_lon in H1 as (a & Ha & Hlt).
    assert (H2 : Qgtb mx (lon a + t) = true) by (apply Qgtb_gt; lra).
    apply max_from_above in H2. change (lon c :: map lon r) with (map lon (c :: r)) in H2.
    apply Exists_lon in H2 as (d & Hd & Hgt).
    exists a, d. repeat split; try assumption. lra.
  - intros (a & d & Ha & Hd & Hlt).
    assert (H1 : lon d <= mx).
    { apply max_from_upper. change (lon c :: map lon r) with (map lon (c :: r)).
      now apply in_map. }
    assert (H2 : mn <= lon a).
    { apply min_from_lower. change (lon c :: map lon r) with (map lon (c :: r)).
      now apply in_map. }
    lra.
Qed.



Lemma side_parts_ring (shift : coord -> coord) (points : ring) (P : coord -> Prop)
    (part : multipolygon) :
  Forall P (map shift points) ->
  In part (side_parts shift points) ->
  exists r, part = [[r]] /\ closed r /\ (3 < length r)%nat /\ Forall P r.
Proof.
  intros HP. unfold side_parts.
  destruct (valid_part points); [|intros []].
  destruct (Nat.ltb_spec 3 (length (close_ring (map shift points)))) as [Hlen|_];
    [|intros []].
  intros [<- | []]. exists (close_ring (map shift points)).
  split; [reflexivity|]. split; [|split; [exact Hlen | now apply close_ring_all]].
  apply close_ring_closed. intros E. rewrite E in Hlen. simpl in Hlen. lia.
Qed.

End PartitionFacts.




(** X14: the rings that SplitPartition builds from an outer ring whose longitudes
    lie in [-180, 180]: each emitted ring is closed and has more than three
    points; the east ring has no longitude in (170, 180], its points there
    being moved to (-190, -180], and the west ring has no longitude in
    [-180, -170), its points there being moved to [180, 190). *)
Theorem partition_rings_avoid_margin (outer_ring : ring) :
  Forall (in_range (-180) 180) outer_ring ->
  let '(east_points, west_points) := SplitPartition.partition_points outer_ring in
  (forall part,
     In part (SplitPartition.side_parts SplitPartition.shift_east east_points) ->
     exists r, part = [[r]] /\ closed r /\ (3 < length r)%nat /\
       Forall (fun c => (-190 < lon c /\ lon c <= -180) \/
                        (0 < lon c /\ lon c <= 170)) r) /\
  (forall part,
     In part (SplitPartition.side_parts SplitPartition.shift_west west_points) ->
     exists r, part = [[r]] /\ closed r /\ (3 < length r)%nat /\
       Forall (fun c => (180 <= lon c /\ lon c < 190) \/
                        (-170 <= lon c /\ lon c <= 0)) r).
Proof.
  intros Hrange. rewrite partition_points_filter.
  rewrite List.Forall_forall in Hrange.
  split; intros part; apply side_parts_ring; apply List.Forall_forall;
    intros c' Hc'; apply in_map_iff in Hc' as (c & <- & Hc);
    apply filter_In in Hc as [Hin Hside]; destruct (Hrange c Hin) as [Hlo Hhi].
  - apply Qgtb_gt in Hside.
    unfold SplitPartition.shift_east. destruct (Qgtb (lon c) 170) eqn:E.
    + apply Qgtb_gt in E. left. cbn [lon fst]. split; lra.
    + apply Qgtb_le in E. right. split; assumption.
  - apply negb_true_iff, Qgtb_le in Hside.
    unfold SplitPartition.shift_west. destruct (Qltb (lon c) (-170)) eqn:E.
    + apply Qltb_lt in E. left. cbn [lon fst]. split; lra.
    + apply Qltb_ge in E. right. split; assumption.
Qed.

Lemma partition_rings_avoid_margin_witness :
  let '(east_points, west_points) := SplitPartition.partition_points scenario_D in
  (forall part,
     In part (SplitPartition.side_parts SplitPartition.shift_east east_points) ->
     exists r, part = [[r]] /\ closed r /\ (3 < length r)%nat /\
       Forall (fun c => (-190 < lon c /\ lon c <= -180) \/
                        (0 < lon c /\ lon c <= 170)) r) /\
  (forall part,
     In part (SplitPartition.side_parts SplitPartition.shift_west west_points) ->
     exists r, part = [[r]] /\ closed r /\ (3 < length r)%nat /\
       Forall (fun c => (180 <= lon c /\ lon c < 190) \/
                        (-170 <= lon c /\ lon c <= 0)) r).
Proof.
  apply (partition_rings_avoid_margin scenario_D).
  repeat constructor; discriminate.
Defined.

(** ** SplitPartition on features *)

Section PartitionPipeline.
Import SplitPartition.

Lemma process_feature_scannable (f : feature) :
  scannable_feature f ->
  exists out, process_feature f = Ok out /\ (untriggered_feature f -> out = [f]).
Proof.
  unfold scannable_feature, untriggered_feature, process_feature.
  destruct (geometry f) as [coords| |]; intros Hs; [|eauto|eauto].
  rewrite scan_polygons_contributions by exact Hs. cbn [mbind result_bind fst snd].
  rewrite orb_false_l, app_nil_l.
  destruct (existsb triggers coords); [|eauto].
  eexists. split; [reflexivity | discriminate].
Qed.

Lemma process_features_concat (acc features : list feature) :
  Forall scannable_feature features ->
  exists outs,
    process_features acc features = Ok (acc ++ concat outs) /\
    Forall2 (fun f out => process_feature f = Ok out /\
                          (untriggered_feature f -> out = [f])) features outs.
Proof.
  intros H. revert acc. induction H as [|f features Hf _ IH]; intros acc.
  - exists []. simpl. rewrite app_nil_r. split; [reflexivity | constructor].
  - destruct (process_feature_scannable f Hf) as (out & Hout & Hsame).
    destruct (IH (acc ++ out)) as (outs & Houts & Hall).
    exists (out :: outs). cbn [process_features]. rewrite Hout.
    cbn [mbind result_bind]. rewrite Houts, <- app_assoc.
    split; [reflexivity | now constructor].
Qed.

End PartitionPipeline.

(** X15: SplitPartition writes, in the order of the input, what each feature
    yields, the parts of a split feature next to each other; a feature that
    is no MultiPolygon, or none of whose polygons triggers the span test, is
    written as it is. *)
Theorem partition_pipeline_order (features : list feature) :
  Forall scannable_feature features ->
  exists outs,
    SplitPartition.process_geojson features = Ok (concat outs) /\
    Forall2 (fun f out => SplitPartition.process_feature f = Ok out /\
                          (untriggered_feature f -> out = [f])) features outs.
Proof. intros H. exact (process_features_concat [] features H). Qed.

Lemma partition_pipeline_order_witness :
  exists outs,
    SplitPartition.process_geojson
      [river; feature_of "fiji" [[scenario_D]; [greenwich_ring]];
       feature_of "lake" [[inland_ring; pond]]] = Ok (concat outs) /\
    Forall2 (fun f out => SplitPartition.process_feature f = Ok out /\
                          (untriggered_feature f -> out = [f]))
      [river; feature_of "fiji" [[scenario_D]; [greenwich_ring]];
       feature_of "lake" [[inland_ring; pond]]] outs.
Proof.
  apply (partition_pipeline_order
           [river; feature_of "fiji" [[scenario_D]; [greenwich_ring]];
            feature_of "lake" [[inland_ring; pond]]]).
  repeat constructor.
Defined.

(** X16: a feature that SplitPartition splits loses its members other than
    ["type"] (an ["id"] or a ["bbox"] member of the feature object is not
    copied), and every part keeps each property of the original feature,
    except that a ["_part"] property is overwritten. *)
Theorem partition_feature_frame (f : feature) (coords : multipolygon) :
  geometry f = MultiPolygon coords ->
  Forall nonempty_outer coords ->
  existsb triggers coords = true ->
  exists out,
    SplitPartition.process_feature f = Ok out /\
    Forall (partition_frame f) out.
Proof.
  intros Hg Hne Hex. eexists. split; [exact (process_feature_crossing f coords Hg Hne Hex)|].
  apply Forall_lookup. intros i g Hi.
  apply list_lookup_imap_Some in Hi as (part & _ & ->).
  split; [reflexivity|]. intros k Hk. unfold SplitPartition.part_feature. simpl.
  destruct (1 <? length (concat (map contribution coords)))%nat; [|reflexivity].
  now apply lookup_insert_ne.
Qed.

Lemma partition_feature_frame_witness :
  exists out,
    SplitPartition.process_feature
      (feature_of "fiji" [[scenario_D]; [greenwich_ring]]) = Ok out /\
    Forall (partition_frame (feature_of "fiji" [[scenario_D]; [greenwich_ring]])) out.
Proof.
  apply (partition_feature_frame (feature_of "fiji" [[scenario_D]; [greenwich_ring]])
           [[scenario_D]; [greenwich_ring]]).
  - reflexivity.
  - repeat constructor.
  - reflexivity.
Defined.

(** ** [normalize_longitude] *)

Section NormalizeFacts.
Import SplitPartition.






End NormalizeFacts.



(** ** ShiftUnify on features *)

Section ShiftPipeline.
Import ShiftUnify.

Lemma shifted_moved (c c' : coord) : shifted c c' -> moved_by_turn c c'.
Proof.
  intros (Hlat & Hneg & Hpos). split; [exact Hlat|].
  destruct (Qlt_le_dec (lon c) 0) as [H | H].
  - right. now apply Hneg.
  - left. rewrite Hpos; [reflexivity|]. now apply Qle_not_lt.
Qed.

Lemma shift_all_moved (coords : multipolygon) :
  Forall2 (Forall2 (Forall2 moved_by_turn)) coords (shift_all coords).
Proof.
  pose proof (shift_all_shape coords) as H.
  induction H as [|poly poly' coords coords' Hp _ IH]; constructor; [|exact IH].
  induction Hp as [|r r' poly poly' Hr _ IHp]; constructor; [|exact IHp].
  induction Hr as [|c c' r r' Hc _ IHr]; constructor; [|exact IHr].
  now apply shifted_moved.
Qed.

Lemma unmoved (coords : multipolygon) :
  Forall2 (Forall2 (Forall2 moved_by_turn)) coords coords.
Proof.
  induction coords as [|poly coords IH]; constructor; [|exact IH].
  induction poly as [|r poly IHp]; constructor; [|exact IHp].
  induction r as [|c r IHr]; constructor; [|exact IHr].
  split; [reflexivity | now left].
Qed.

Lemma fix_feature_frame (f : feature) : shift_frame f (fix_feature f).
Proof.
  unfold shift_frame, fix_feature, unshifted_feature.
  destruct f as [mem props geom]. cbn [geometry members properties].
  destruct geom as [coords| |].
  - cbn [geometry members properties]. repeat split.
    + intros Hc. unfold fix_coordinates. now rewrite Hc.
    + intros coords' [= <-]. eexists. split; [reflexivity|].
      unfold fix_coordinates. destruct (crosses coords);
        [apply shift_all_moved | apply unmoved].
  - repeat split. discriminate.
  - repeat split. discriminate.
Qed.

End ShiftPipeline.

(** X18: ShiftUnify writes one feature for each feature it reads, in the same
    order, with the same properties and other members; a feature that is no
    MultiPolygon, or whose longitudes do not have both a value below -170 and
    a value above 170, is written as it is; in every MultiPolygon the numbers
    of polygons, rings and points and every latitude are kept, and a
    longitude is either kept or increased by 360. *)
Theorem shift_unify_pipeline_frame (features : list feature) :
  Forall2 shift_frame features (ShiftUnify.fix_dateline_crossing features).
Proof.
  unfold ShiftUnify.fix_dateline_crossing.
  induction features as [|f features IH]; constructor; [|exact IH].
  apply fix_feature_frame.
Qed.

(** ** The vertices of a split ring *)

Section VertexFacts.
Import SplitInterpolate.

Lemma split_step_jump (st st' : split_state) (c1 c2 : coord) :
  edge_jumps c1 c2 = true ->
  split_step st c1 c2 = Ok st' ->
  exists seam resume,
    st' = flush_part st ((current_part st ++ [c1]) ++ [seam]) [resume].
Proof.
  unfold edge_jumps, split_step. destruct c1 as [lon1 lat1], c2 as [lon2 lat2].
  cbn [lon fst]. intros ->. destruct (Qgtb lon1 0).
  - destruct (pydiv (180 - lon1) (lon2 + 360 - lon1)) as [ratio|e];
      cbn [mbind result_bind]; [|discriminate].
    intros [= <-]. eauto.
  - destruct (pydiv (-180 - lon1) (lon2 - 360 - lon1)) as [ratio|e];
      cbn [mbind result_bind]; [|discriminate].
    intros [= <-]. eauto.
Qed.

Lemma tail_snoc (l : ring) (c : coord) : l <> [] -> tail (l ++ [c]) = tail l ++ [c].
Proof. destruct l; [congruence | reflexivity]. Qed.

Lemma In_tail (l : ring) (c : coord) : In c (tail l) -> In c l.
Proof. destruct l; [intros [] | now right]. Qed.

Lemma split_step_phase (j : nat) (st st' : split_state) (seen : coord -> Prop)
    (c1 c2 : coord) :
  split_phase j st seen ->
  ((if edge_jumps c1 c2 then 1 else 0) + j <= 2)%nat ->
  split_step st c1 c2 = Ok st' ->
  split_phase ((if edge_jumps c1 c2 then 1 else 0) + j) st'
    (fun c => seen c \/ c = c1).
Proof.
  intros Hph Hj Hstep. destruct (edge_jumps c1 c2) eqn:E.
  - destruct (split_step_jump st st' c1 c2 E Hstep) as (seam & resume & ->).
    unfold flush_part.
    destruct j as [|[|j]]; [| |lia]; cbn [Nat.add split_phase] in *.
    + destruct Hph as (Hw & He & Hwest & Hseen). rewrite Hwest.
      cbn [west_part east_part current_part is_west negb].
      repeat split; try assumption; try discriminate.
      * intros H. apply app_eq_nil in H as [_ H]. discriminate H.
      * intros c [Hc | ->]; left; rewrite !in_app_iff; [left; left; auto|].
        left. right. now left.
    + destruct Hph as (Hw & He & Hwest & Hcur & Hseen). rewrite Hwest.
      cbn [west_part east_part current_part is_west negb].
      repeat split; try assumption; try discriminate.
      intros c [Hc | ->].
      * destruct (Hseen c Hc) as [H | H]; [now left|].
        right. left. rewrite !in_app_iff. left. left. now apply In_tail.
      * right. left. rewrite !in_app_iff. left. right. now left.
  - rewrite (split_step_plain st c1 c2 E) in Hstep. injection Hstep as <-.
    destruct j as [|[|j]]; cbn [Nat.add split_phase] in *;
      cbn [west_part east_part current_part is_west].
    + destruct Hph as (Hw & He & Hwest & Hseen). repeat split; try assumption.
      intros c [Hc | ->]; rewrite in_app_iff; [left; auto | right; now left].
    + destruct Hph as (Hw & He & Hwest & Hcur & Hseen). repeat split; try assumption.
      * intros H. apply app_eq_nil in H as [H _]. contradiction.
      * intros c Hc. rewrite (tail_snoc _ _ Hcur), in_app_iff.
        destruct Hc as [Hc | ->]; [|right; right; now left].
        destruct (Hseen c Hc); auto.
    + destruct Hph as (Hw & Hwest & Hcur & Hseen). repeat split; try assumption.
      * intros H. apply app_eq_nil in H as [H _]. contradiction.
      * intros c Hc. rewrite (tail_snoc _ _ Hcur), in_app_iff.
        destruct Hc as [Hc | ->]; [|right; right; right; now left].
        destruct (Hseen c Hc) as [H | [H | H]]; auto.
Qed.

End VertexFacts.

Section VertexLoop.
Import SplitInterpolate.

Lemma split_phase_weaken (j : nat) (st : split_state) (seen seen' : coord -> Prop) :
  (forall c, seen' c -> seen c) -> split_phase j st seen -> split_phase j st seen'.
Proof.
  intros Hsub. destruct j as [|[|j]]; cbn [split_phase].
  - intros (Hw & He & Hwest & Hseen). repeat split; auto.
  - intros (Hw & He & Hwest & Hcur & Hseen). repeat split; auto.
  - intros (Hw & Hwest & Hcur & Hseen). repeat split; auto.
Qed.

Lemma split_loop_phase (coords : ring) :
  forall (j : nat) (st st' : split_state) (seen : coord -> Prop),
    split_phase j st seen ->
    (jumps coords + j <= 2)%nat ->
    split_loop st coords = Ok st' ->
    exists j', (j' <= 2)%nat /\
      split_phase j' st' (fun c => seen c \/ In c (removelast coords)).
Proof.
  induction coords as [|c1 [|c2 rest] IH]; intros j st st' seen Hph Hj.
  - intros [= <-]. exists j. split; [simpl in Hj; lia|].
    apply (split_phase_weaken j st seen); [|exact Hph]. now intros c [H | []].
  - intros [= <-]. exists j. split; [simpl in Hj; lia|].
    apply (split_phase_weaken j st seen); [|exact Hph]. now intros c [H | []].
  - change (jumps (c1 :: c2 :: rest))
      with ((if edge_jumps c1 c2 then 1 else 0) + jumps (c2 :: rest))%nat in Hj.
    change (split_loop st (c1 :: c2 :: rest))
      with (st1 ← split_step st c1 c2; split_loop st1 (c2 :: rest)).
    destruct (split_step st c1 c2) as [st1|e] eqn:Hstep;
      cbn [mbind result_bind]; [|discriminate].
    intros Hloop.
    assert (Hph1 := split_step_phase j st st1 seen c1 c2 Hph ltac:(lia) Hstep).
    destruct (IH _ st1 st' _ Hph1 ltac:(lia) Hloop) as (j' & Hj' & Hph').
    exists j'. split; [exact Hj'|].
    apply (split_phase_weaken j' st' _ _ ) with (2 := Hph').
    change (removelast (c1 :: c2 :: rest)) with (c1 :: removelast (c2 :: rest)).
    intros c [H | [<- | H]]; auto.
Qed.

Lemma In_close_ring (r : ring) (c : coord) : In c r -> In c (close_ring r).
Proof.
  unfold close_ring. destruct r as [|d r]; [intros []|].
  destruct (ends_differ (d :: r)); [|auto]. intros H. apply in_or_app. now left.
Qed.

End VertexLoop.

(** X19: a ring with at most two crossing edges loses no vertex: every
    coordinate of the ring is a coordinate of the west part or of the east
    part. *)
Theorem split_keeps_vertices (coords : ring) :
  (jumps coords <= 2)%nat ->
  has_degenerate_edge coords = false ->
  exists west east,
    SplitInterpolate.split_polygon_at_dateline coords = Ok (west, east) /\
    forall c, In c coords -> In c west \/ In c east.
Proof.
  intros Hj Hreg. unfold SplitInterpolate.split_polygon_at_dateline.
  destruct (split_loop_regular SplitInterpolate.split_init coords Hreg) as [st Hloop].
  rewrite Hloop. cbn [mbind result_bind].
  destruct (split_loop_phase coords 0 SplitInterpolate.split_init st (fun _ => False))
    as (j & Hj2 & Hph); [cbn; auto | lia | exact Hloop |].
  eexists. eexists. split; [reflexivity|].
  intros c Hc. pose proof (py_last_removelast coords) as Hlast.
  destruct (py_last coords) as [l|]; [|subst coords; destruct Hc].
  rewrite <- Hlast in Hc. apply in_app_or in Hc.
  assert (Hsel : (exists d, d = c /\ In d (removelast coords)) \/ c = l).
  { destruct Hc as [Hc | [<- | []]]; [left; eauto | now right]. }
  clear Hc Hlast.
  destruct j as [|[|j]]; cbn [split_phase] in Hph.
  - destruct Hph as (Hw & He & Hwest & Hseen). rewrite Hw, He, Hwest.
    left. apply In_close_ring. cbn [SplitInterpolate.join_part].
    apply in_or_app. destruct Hsel as [(d & <- & Hd) | ->]; [left | right; now left].
    apply Hseen. now right.
  - destruct Hph as (Hw & He & Hwest & Hcur & Hseen). rewrite He, Hwest.
    destruct Hsel as [(d & <- & Hd) | ->].
    + destruct (Hseen d (or_intror Hd)) as [H | H].
      * left. now apply In_close_ring.
      * right. apply In_close_ring. cbn [SplitInterpolate.join_part].
        apply in_or_app. left. now apply In_tail.
    + right. apply In_close_ring. cbn [SplitInterpolate.join_part].
      apply in_or_app. right. now left.
  - destruct Hph as (Hw & Hwest & Hcur & Hseen). rewrite Hwest.
    destruct (SplitInterpolate.west_part st) as [|w0 wp] eqn:Ewp; [congruence|].
    cbn [SplitInterpolate.join_part]. rewrite (tail_snoc _ _ Hcur).
    destruct Hsel as [(d & <- & Hd) | ->].
    + destruct (Hseen d (or_intror Hd)) as [H | [H | H]].
      * left. apply In_close_ring. apply in_or_app. now left.
      * right. now apply In_close_ring.
      * left. apply In_close_ring. apply in_or_app. right.
        apply in_or_app. now left.
    + left. apply In_close_ring. apply in_or_app. right.
      apply in_or_app. right. now left.
Qed.

Lemma split_keeps_vertices_witness :
  exists west east,
    SplitInterpolate.split_polygon_at_dateline scenario_A = Ok (west, east) /\
    forall c, In c scenario_A -> In c west \/ In c east.
Proof.
  apply (split_keeps_vertices scenario_A).
  - vm_compute. lia.
  - reflexivity.
Defined.

(** ** SplitPartition with two groups, and the two span policies *)

(** X20: when both groups of a triggering outer ring have more than three
    points, the feature is replaced by two features: the east ring with
    part index 1, then the west ring with part index 2. *)
Theorem partition_two_parts (f : feature) (outer_ring : ring) (holes : list ring) :
  geometry f = MultiPolygon [outer_ring :: holes] ->
  SplitPartition.span_test outer_ring = Ok true ->
  (3 < length (List.filter (fun c => Qgtb (lon c) 0) outer_ring))%nat ->
  (3 < length (List.filter (fun c => negb (Qgtb (lon c) 0)) outer_ring))%nat ->
  SplitPartition.process_geojson [f]
  = Ok [tagged_part_feature (properties f) 1 (east_ring outer_ring);
        tagged_part_feature (properties f) 2 (west_ring outer_ring)].
Proof.
  intros Hg Hspan Heast Hwest.
  assert (Hne : Forall nonempty_outer [outer_ring :: holes]).
  { constructor; [|constructor]. destruct outer_ring; [simpl in Heast; lia | exact I]. }
  assert (Ht : triggers (outer_ring :: holes) = true).
  { unfold triggers. now rewrite Hspan. }
  assert (Hex : existsb triggers [outer_ring :: holes] = true).
  { unfold existsb. now rewrite Ht. }
  assert (Hc : contribution (outer_ring :: holes)
               = [[[east_ring outer_ring]]; [[west_ring outer_ring]]]).
  { unfold contribution. rewrite Ht.
    unfold SplitPartition.side_parts, valid_part, east_ring, west_ring.
    change (fun c : coord => Qgtb (lon c) 0) with east_of_zero in Heast.
    change (3 < length (List.filter (fun c => negb (east_of_zero c)) outer_ring))%nat
      in Hwest.
    pose proof (length_close_ring
      (map SplitPartition.shift_east (List.filter east_of_zero outer_ring))) as Hle.
    pose proof (length_close_ring
      (map SplitPartition.shift_west
         (List.filter (fun c => negb (east_of_zero c)) outer_ring))) as Hlw.
    rewrite length_map in Hle, Hlw.
    repeat match goal with
           | |- context [(3 <? ?n)%nat] =>
               destruct (Nat.ltb_spec 3 n); [|lia]
           end.
    reflexivity. }
  unfold SplitPartition.process_geojson, SplitPartition.process_features.
  rewrite (process_feature_crossing f _ Hg Hne Hex).
  cbn [map concat]. rewrite Hc. reflexivity.
Qed.

Lemma partition_two_parts_witness :
  SplitPartition.process_geojson
    [feature_of "fiji" [[scenario_D ++ [(-177, 2); (176, 0)]]]]
  = Ok [tagged_part_feature
          (properties (feature_of "fiji" [[scenario_D ++ [(-177, 2); (176, 0)]]])) 1
          (east_ring (scenario_D ++ [(-177, 2); (176, 0)]));
        tagged_part_feature
          (properties (feature_of "fiji" [[scenario_D ++ [(-177, 2); (176, 0)]]])) 2
          (west_ring (scenario_D ++ [(-177, 2); (176, 0)]))].
Proof.
  apply (partition_two_parts
           (feature_of "fiji" [[scenario_D ++ [(-177, 2); (176, 0)]]])
           (scenario_D ++ [(-177, 2); (176, 0)]) []).
  - reflexivity.
  - reflexivity.
  - vm_compute. lia.
  - vm_compute. lia.
Defined.

Lemma In_all_lons (coords : multipolygon) (poly : polygon) (r : ring) (c : coord) :
  In poly coords -> In r poly -> In c r -> In (lon c) (ShiftUnify.all_lons coords).
Proof.
  intros Hp Hr Hc. unfold ShiftUnify.all_lons.
  apply in_concat. eexists. split; [apply in_map; exact Hp|].
  apply in_concat. eexists. split; [apply in_map; exact Hr|].
  now apply in_map.
Qed.

(** X21: for an outer ring with longitudes in [-180, 180], the span test of
    SplitPartition is the stronger one: whenever it triggers on the outer
    ring of a polygon, the bounds test of ShiftUnify triggers on every
    MultiPolygon that contains the polygon. *)
Theorem span_trigger_implies_bounds_trigger (coords : multipolygon)
    (outer_ring : ring) (holes : list ring) :
  In (outer_ring :: holes) coords ->
  Forall (in_range (-180) 180) outer_ring ->
  SplitPartition.span_test outer_ring = Ok true ->
  ShiftUnify.crosses coords = true.
Proof.
  intros Hin Hrange Hspan.
  destruct outer_ring as [|c r]; [discriminate Hspan|].
  unfold SplitPartition.span_test in Hspan. simpl in Hspan. injection Hspan as Hspan.
  apply span_exceeds in Hspan as (a & d & Ha & Hd & Hlt).
  rewrite List.Forall_forall in Hrange.
  destruct (Hrange a Ha) as [Ha1 Ha2]. destruct (Hrange d Hd) as [Hd1 Hd2].
  apply crosses_spec. split; apply List.Exists_exists.
  - exists (lon a). split; [|lra].
    apply (In_all_lons coords (((c :: r) : ring) :: holes) (c :: r) a);
      [exact Hin | now left | exact Ha].
  - exists (lon d). split; [|lra].
    apply (In_all_lons coords (((c :: r) : ring) :: holes) (c :: r) d);
      [exact Hin | now left | exact Hd].
Qed.

Lemma span_trigger_implies_bounds_trigger_witness :
  ShiftUnify.crosses [[inland_ring; pond]; [scenario_D]] = true.
Proof.
  apply (span_trigger_implies_bounds_trigger [[inland_ring; pond]; [scenario_D]]
           scenario_D []).
  - simpl. tauto.
  - repeat constructor; discriminate.
  - reflexivity.
Defined.
